(** * Arkitektonika: the MySQL schematic record store (src/config.js)

    A shallow embedding of the class [MySQLDatabase]: the [accounting]
    table, the SQL statements the class sends through [pool.query], and its
    public methods, followed by the properties of the data-access contract.

    Modelling conventions.
    - The table is the list of its rows in insertion order; a [SELECT]
      without [ORDER BY] returns the rows in that order.
    - [BIGINT] timestamps, [INT] ids and the JavaScript numbers that carry
      them are integers ([Z]); column widths ([CHAR(32)], [VARCHAR(255)], the
      range of [INT]) are not modelled, and [=] on a key column is equality
      of strings.
    - [PRIMARY KEY] and [UNIQUE] are modelled: an [INSERT] that would
      duplicate a key is rejected by the database.
    - [Date.now()] and the random source behind [ID_GENERATOR] are oracles
      carried by the state together with a read cursor, so that two calls
      may return different values.
    - A rejected promise (a JavaScript [throw], or an error of [pool.query])
      is the [Err] result; the writes done before it stay. *)

From Stdlib Require Import ZArith List String Ascii Bool Arith Lia.
Import ListNotations.
Local Open Scope Z_scope.

(** ** Data *)

(** A JavaScript [Date], by its milliseconds since the epoch. *)
Inductive Date : Type := mkDate (epoch_ms : Z).

Definition new_Date (ms : Z) : Date := mkDate ms.

(** One row of the table [accounting] (the columns of [migrate]); a
    nullable column is an [option]. *)
Module Row.
Record t : Type := mk {
  id : Z;
  download_key : string;
  delete_key : string;
  filename : string;
  last_accessed : Z;
  expired : option Z;
  uploaded_by : option string;
  schem_type : option string;
  pos1 : option string;
  pos2 : option string
}.

(** The row after [SET expired = v]. *)
Definition set_expired (v : option Z) (r : t) : t :=
  mk (id r) (download_key r) (delete_key r) (filename r) (last_accessed r)
     v (uploaded_by r) (schem_type r) (pos1 r) (pos2 r).
End Row.

(** The object [SchematicRecord], with the properties that
    [transformRowToRecord] writes and [storeSchematicRecord] reads;
    [None] is JavaScript's [undefined] (or [null]). *)
Module SchematicRecord.
Record t : Type := mk {
  id : option Z;
  downloadKey : string;
  deleteKey : string;
  fileName : string;
  expired : option Date;
  last_accessed : option Date;
  uploader : option string;
  schem_type : option string;
  pos1 : option string;
  pos2 : option string
}.
End SchematicRecord.

(** JavaScript truthiness of a number: [0] is falsy. *)
Definition truthy (n : Z) : bool := negb (n =? 0).

(** [transformRowToRecord], field by field as the object literal of the
    source has them (its last field reads [row.pos1]). *)
Definition transformRowToRecord (row : Row.t) : SchematicRecord.t :=
  {| SchematicRecord.id := Some (Row.id row);
     SchematicRecord.downloadKey := Row.download_key row;
     SchematicRecord.deleteKey := Row.delete_key row;
     SchematicRecord.fileName := Row.filename row;
     SchematicRecord.expired :=
       match Row.expired row with
       | Some e => if truthy e then Some (new_Date e) else None
       | None => None
       end;
     SchematicRecord.last_accessed :=
       if truthy (Row.last_accessed row)
       then Some (new_Date (Row.last_accessed row)) else None;
     SchematicRecord.uploader := Row.uploaded_by row;
     SchematicRecord.schem_type := Row.schem_type row;
     SchematicRecord.pos1 := Row.pos1 row;
     SchematicRecord.pos2 := Row.pos1 row |}.

(** The record that carries exactly the fields of a row, as the
    specification words it: every field from the column of its name. *)
Definition recordOfRow_spec (row : Row.t) : SchematicRecord.t :=
  {| SchematicRecord.id := Some (Row.id row);
     SchematicRecord.downloadKey := Row.download_key row;
     SchematicRecord.deleteKey := Row.delete_key row;
     SchematicRecord.fileName := Row.filename row;
     SchematicRecord.expired := option_map new_Date (Row.expired row);
     SchematicRecord.last_accessed := Some (new_Date (Row.last_accessed row));
     SchematicRecord.uploader := Row.uploaded_by row;
     SchematicRecord.schem_type := Row.schem_type row;
     SchematicRecord.pos1 := Row.pos1 row;
     SchematicRecord.pos2 := Row.pos2 row |}.

(** ** State, errors and the monad of the methods *)

Inductive Error : Type :=
| JsError (message : string)      (* [throw new Error(message)] *)
| ER_DUP_ENTRY (key_name : string). (* the database rejects a duplicate key *)

Inductive Result (A : Type) : Type :=
| Ok (a : A)
| Err (e : Error).
Arguments Ok {A} a.
Arguments Err {A} e.

Record World : Type := mkWorld {
  accounting : list Row.t;   (* the table *)
  auto_increment : Z;        (* the next AUTO_INCREMENT value *)
  clock : nat -> Z;          (* what the k-th call of Date.now() returns *)
  clock_reads : nat;         (* how many calls were made *)
  entropy : nat -> nat;      (* the k-th number the random source yields *)
  entropy_reads : nat        (* how many were drawn *)
}.

Definition with_accounting (rows : list Row.t) (w : World) : World :=
  mkWorld rows (auto_increment w) (clock w) (clock_reads w)
          (entropy w) (entropy_reads w).

Definition M (A : Type) : Type := World -> Result A * World.

Definition ret {A} (a : A) : M A := fun w => (Ok a, w).

Definition throw {A} (e : Error) : M A := fun w => (Err e, w).

Definition bind {A B} (m : M A) (k : A -> M B) : M B :=
  fun w =>
    match m w with
    | (Ok a, w1) => k a w1
    | (Err e, w1) => (Err e, w1)
    end.

Notation "x <- m ;; k" := (bind m (fun x => k))
  (at level 61, m at next level, right associativity).

(** [for (const x of xs) { await body(x) }] *)
Fixpoint for_of {A} (xs : list A) (body : A -> M unit) : M unit :=
  match xs with
  | [] => ret tt
  | x :: rest => _ <- body x ;; for_of rest body
  end.

(** [Date.now()] *)
Definition Date_now : M Z :=
  fun w =>
    (Ok (clock w (clock_reads w)),
     mkWorld (accounting w) (auto_increment w) (clock w) (S (clock_reads w))
             (entropy w) (entropy_reads w)).

(** One draw of the random source. *)
Definition random_draw : M nat :=
  fun w =>
    (Ok (entropy w (entropy_reads w)),
     mkWorld (accounting w) (auto_increment w) (clock w) (clock_reads w)
             (entropy w) (S (entropy_reads w))).

(** ** nanoid's [customAlphabet] and [ID_GENERATOR]

    [customAlphabet] is imported from the package nanoid; it is modelled by
    its contract: the generator it returns yields a string of [size]
    letters of [alphabet], chosen by the random source. *)

(** The letter of [alphabet] that a random number selects. *)
Definition pick (alphabet : string) (r : nat) : string :=
  match String.get (Nat.modulo r (String.length alphabet)) alphabet with
  | Some c => String c EmptyString
  | None => EmptyString
  end.

(** [customAlphabet(alphabet, size)()]: [size] letters, each drawn from
    [alphabet] by the random source. *)
Fixpoint customAlphabet (alphabet : string) (size : nat) : M string :=
  match size with
  | O => ret EmptyString
  | S n =>
      r <- random_draw ;;
      rest <- customAlphabet alphabet n ;;
      ret (pick alphabet r ++ rest)%string
  end.

Definition ID_GENERATOR : M string := customAlphabet "0123456789abcdef" 32.

Definition is_lower_hex (c : ascii) : bool :=
  let n := nat_of_ascii c in
  ((48 <=? n)%nat && (n <=? 57)%nat) || ((97 <=? n)%nat && (n <=? 102)%nat).

Fixpoint all_lower_hex (s : string) : bool :=
  match s with
  | EmptyString => true
  | String c rest => is_lower_hex c && all_lower_hex rest
  end.

(** A 32-character lowercase-hex string. *)
Definition is_key32 (s : string) : bool :=
  (String.length s =? 32)%nat && all_lower_hex s.

(** ** The SQL statements *)

Inductive KeyColumn : Type := col_delete_key | col_download_key.

Definition column_of (column : KeyColumn) (r : Row.t) : string :=
  match column with
  | col_delete_key => Row.delete_key r
  | col_download_key => Row.download_key r
  end.

Definition is_null {A} (o : option A) : bool :=
  match o with None => true | Some _ => false end.

(** [WHERE id = ?]: a NULL parameter matches no row. *)
Definition id_matches (param : option Z) (r : Row.t) : bool :=
  match param with
  | Some i => Row.id r =? i
  | None => false
  end.

(** [WHERE last_accessed <= ? AND expired IS NULL] *)
Definition stale (cutoff : Z) (r : Row.t) : bool :=
  (Row.last_accessed r <=? cutoff) && is_null (Row.expired r).

Module Sql.
(** [SELECT * FROM accounting] *)
Definition select_all : M (list Row.t) :=
  fun w => (Ok (accounting w), w).

(** [SELECT * FROM accounting WHERE expired IS NULL] *)
Definition select_unexpired : M (list Row.t) :=
  fun w => (Ok (filter (fun r => is_null (Row.expired r)) (accounting w)), w).

(** [SELECT * FROM accounting WHERE <column> = ? LIMIT 1] *)
Definition select_by_key (column : KeyColumn) (key : string)
  : M (list Row.t) :=
  fun w =>
    (Ok (firstn 1 (filter (fun r => String.eqb (column_of column r) key)
                          (accounting w))), w).

(** [SELECT id FROM accounting WHERE <column> = ? LIMIT 1] *)
Definition select_id_by_key (column : KeyColumn) (key : string)
  : M (list Z) :=
  fun w =>
    (Ok (map Row.id
           (firstn 1 (filter (fun r => String.eqb (column_of column r) key)
                             (accounting w)))), w).

(** [SELECT * FROM accounting WHERE last_accessed <= ? AND expired IS NULL] *)
Definition select_stale (cutoff : Z) : M (list Row.t) :=
  fun w => (Ok (filter (stale cutoff) (accounting w)), w).

Definition update_row (now : Z) (param : option Z) (r : Row.t) : Row.t :=
  if id_matches param r then Row.set_expired (Some now) r else r.

(** [UPDATE accounting SET expired = ? WHERE id = ?]; the result is
    [affectedRows], the number of rows the [WHERE] matched. *)
Definition update_expired (now : Z) (param : option Z) : M Z :=
  fun w =>
    (Ok (Z.of_nat (List.length (filter (id_matches param) (accounting w)))),
     with_accounting (map (update_row now param) (accounting w)) w).

Definition key_taken (column : KeyColumn) (key : string)
           (rows : list Row.t) : bool :=
  existsb (fun r => String.eqb (column_of column r) key) rows.

(** [INSERT INTO accounting (filename, download_key, delete_key,
    last_accessed, uploaded_by, schem_type, pos1, pos2) VALUES (...)]:
    [id] is the AUTO_INCREMENT value, [expired] is NULL; the two UNIQUE
    columns reject a key that is present. *)
Definition insert (filename download_key delete_key : string)
           (last_accessed : Z)
           (uploaded_by schem_type pos1 pos2 : option string) : M unit :=
  fun w =>
    if key_taken col_download_key download_key (accounting w)
    then (Err (ER_DUP_ENTRY "download_key"), w)
    else if key_taken col_delete_key delete_key (accounting w)
    then (Err (ER_DUP_ENTRY "delete_key"), w)
    else
      (Ok tt,
       mkWorld
         (accounting w ++
            [Row.mk (auto_increment w) download_key delete_key filename
                    last_accessed None uploaded_by schem_type pos1 pos2])
         (auto_increment w + 1) (clock w) (clock_reads w)
         (entropy w) (entropy_reads w)).
End Sql.

(** ** The methods of [MySQLDatabase] *)

Definition getAllRecords : M (list SchematicRecord.t) :=
  rows <- Sql.select_all ;;
  ret (map transformRowToRecord rows).

Definition getAllUnexpiredRecords : M (list SchematicRecord.t) :=
  rows <- Sql.select_unexpired ;;
  ret (map transformRowToRecord rows).

Definition getSchematicRecordByDeleteKey (deleteKey : string)
  : M SchematicRecord.t :=
  rows <- Sql.select_by_key col_delete_key deleteKey ;;
  match rows with
  | [] => throw (JsError "No data found for passed delete key")
  | result :: _ => ret (transformRowToRecord result)
  end.

Definition getSchematicRecordByDownloadKey (downloadKey : string)
  : M SchematicRecord.t :=
  rows <- Sql.select_by_key col_download_key downloadKey ;;
  match rows with
  | [] => throw (JsError "No data found for passed download key")
  | result :: _ => ret (transformRowToRecord result)
  end.

Definition expireSchematicRecord (recordId : Z) : M unit :=
  now <- Date_now ;;
  affectedRows <- Sql.update_expired now (Some recordId) ;;
  if affectedRows <? 1
  then throw (JsError
    "Failed to expire schematic - No schematic exists with passed id")
  else ret tt.

Definition storeSchematicRecord (record : SchematicRecord.t)
  : M SchematicRecord.t :=
  now <- Date_now ;;
  _ <- Sql.insert (SchematicRecord.fileName record)
                  (SchematicRecord.downloadKey record)
                  (SchematicRecord.deleteKey record)
                  now
                  (SchematicRecord.uploader record)
                  (SchematicRecord.schem_type record)
                  (SchematicRecord.pos1 record)
                  (SchematicRecord.pos2 record) ;;
  ret record.

(** The body of the loop of [expireSchematicRecords]:
    [await this.pool.query('UPDATE accounting SET expired = ? WHERE id = ?',
    [Date.now(), record.id])]. *)
Definition expire_one (record : SchematicRecord.t) : M unit :=
  now' <- Date_now ;;
  _ <- Sql.update_expired now' (SchematicRecord.id record) ;;
  ret tt.

Definition expireSchematicRecords (milliseconds : Z)
  : M (list SchematicRecord.t) :=
  now <- Date_now ;;
  let cutoff := now - milliseconds in
  rows <- Sql.select_stale cutoff ;;
  let records := map transformRowToRecord rows in
  if (List.length records =? 0)%nat then ret []
  else
    _ <- for_of records expire_one ;;
    ret records.

(** The loop of [generateUniqueKey]: [while (iterations++ < maxIterations)]
    runs its body for [iterations = 0 .. maxIterations - 1], so the
    recursion is on the number of rounds that remain. *)
Fixpoint generateUniqueKey_loop (column : KeyColumn) (remaining : nat)
  : M string :=
  match remaining with
  | O => throw (JsError "Failed to generate unique key")
  | S n =>
      key <- ID_GENERATOR ;;
      rows <- Sql.select_id_by_key column key ;;
      if (List.length rows =? 0)%nat then ret key
      else generateUniqueKey_loop column n
  end.

Definition generateUniqueKey (column : KeyColumn) (maxIterations : Z)
  : M string :=
  generateUniqueKey_loop column (Z.to_nat maxIterations).

Definition generateDeletionKey (maxIterations : Z) : M string :=
  generateUniqueKey col_delete_key maxIterations.

Definition generateDownloadKey (maxIterations : Z) : M string :=
  generateUniqueKey col_download_key maxIterations.

(** [migrate] on a database without the table: an empty [accounting],
    whose AUTO_INCREMENT starts at 1. *)
Definition fresh_world (clk : nat -> Z) (rnd : nat -> nat) : World :=
  mkWorld [] 1 clk 0 rnd 0.

(** The error of [expireSchematicRecord] on an unknown id. *)
Definition not_found_id : Error :=
  JsError "Failed to expire schematic - No schematic exists with passed id".

(** The error of [generateUniqueKey] when its rounds are used up. *)
Definition generation_exhausted : Error :=
  JsError "Failed to generate unique key".

(** ** The invariant of the schema

    [id] is the primary key and was handed out by AUTO_INCREMENT; the two
    key columns are UNIQUE. *)
Record wf (w : World) : Prop := mk_wf {
  wf_ids : NoDup (map Row.id (accounting w));
  wf_auto : Forall (fun i => i < auto_increment w) (map Row.id (accounting w));
  wf_download : NoDup (map Row.download_key (accounting w));
  wf_delete : NoDup (map Row.delete_key (accounting w))
}.

(** The calls a client can make, and the state a call leaves. *)
Inductive Call : Type :=
| call_getAllRecords
| call_getAllUnexpiredRecords
| call_getSchematicRecordByDeleteKey (deleteKey : string)
| call_getSchematicRecordByDownloadKey (downloadKey : string)
| call_expireSchematicRecord (recordId : Z)
| call_storeSchematicRecord (record : SchematicRecord.t)
| call_expireSchematicRecords (milliseconds : Z)
| call_generateDeletionKey (maxIterations : Z)
| call_generateDownloadKey (maxIterations : Z).

Definition run_call (c : Call) (w : World) : World :=
  match c with
  | call_getAllRecords => snd (getAllRecords w)
  | call_getAllUnexpiredRecords => snd (getAllUnexpiredRecords w)
  | call_getSchematicRecordByDeleteKey k =>
      snd (getSchematicRecordByDeleteKey k w)
  | call_getSchematicRecordByDownloadKey k =>
      snd (getSchematicRecordByDownloadKey k w)
  | call_expireSchematicRecord i => snd (expireSchematicRecord i w)
  | call_storeSchematicRecord rec => snd (storeSchematicRecord rec w)
  | call_expireSchematicRecords ms => snd (expireSchematicRecords ms w)
  | call_generateDeletionKey n => snd (generateDeletionKey n w)
  | call_generateDownloadKey n => snd (generateDownloadKey n w)
  end.

Definition run_calls (cs : list Call) (w : World) : World :=
  fold_left (fun acc c => run_call c acc) cs w.

(** The table after the sweep, written directly: the stale rows are marked
    in table order, the k-th of them with the k-th reading of the clock
    that follows the one the cutoff was computed from. *)
Fixpoint mark_stale (cutoff : Z) (clk : nat -> Z) (k : nat)
         (rows : list Row.t) : list Row.t :=
  match rows with
  | [] => []
  | r :: rest =>
      if stale cutoff r
      then Row.set_expired (Some (clk k)) r :: mark_stale cutoff clk (S k) rest
      else r :: mark_stale cutoff clk k rest
  end.

(** What the updates of one sweep do to a single row: the k-th update is
    [SET expired = clk k WHERE id = <id of the k-th selected record>]. *)
Fixpoint row_updates (clk : nat -> Z) (k : nat)
         (selected : list SchematicRecord.t) (x : Row.t) : Row.t :=
  match selected with
  | [] => x
  | s :: rest =>
      row_updates clk (S k) rest
        (Sql.update_row (clk k) (SchematicRecord.id s) x)
  end.

(** The state after [n] more draws of the random source. *)
Definition advance_entropy (n : nat) (w : World) : World :=
  mkWorld (accounting w) (auto_increment w) (clock w) (clock_reads w)
          (entropy w) (entropy_reads w + n).

(** The state after [n] more readings of the clock, with table [rows]. *)
Definition advance_clock (n : nat) (rows : list Row.t) (w : World) : World :=
  mkWorld rows (auto_increment w) (clock w) (clock_reads w + n)
          (entropy w) (entropy_reads w).

(** The letters that [size] draws select, from the draw number [start]. *)
Fixpoint letters (alphabet : string) (rnd : nat -> nat) (start size : nat)
  : string :=
  match size with
  | O => EmptyString
  | S n => (pick alphabet (rnd start) ++ letters alphabet rnd (S start) n)%string
  end.

(** The values of a key column. *)
Definition column_values (column : KeyColumn) (rows : list Row.t)
  : list string :=
  map (column_of column) rows.

(** The row that [storeSchematicRecord record] inserts in state [w]. *)
Definition inserted_row (record : SchematicRecord.t) (w : World) : Row.t :=
  Row.mk (auto_increment w)
         (SchematicRecord.downloadKey record)
         (SchematicRecord.deleteKey record)
         (SchematicRecord.fileName record)
         (clock w (clock_reads w))
         None
         (SchematicRecord.uploader record)
         (SchematicRecord.schem_type record)
         (SchematicRecord.pos1 record)
         (SchematicRecord.pos2 record).

(** The state after a [storeSchematicRecord record] that was accepted. *)
Definition stored (record : SchematicRecord.t) (w : World) : World :=
  mkWorld (accounting w ++ [inserted_row record w]) (auto_increment w + 1)
          (clock w) (S (clock_reads w)) (entropy w) (entropy_reads w).

(** The j-th candidate key that [generateUniqueKey] draws in state [w]. *)
Definition candidate (w : World) (j : nat) : string :=
  match fst (ID_GENERATOR
               (advance_entropy (32 * j) w)) with
  | Ok key => key
  | Err _ => EmptyString
  end.

(** What a call [generateUniqueKey column maxIterations] in state [w] may
    end with: the table is as before, and either the result is a
    32-character lowercase-hex key that is not in the column, one of the
    candidates drawn, or it is the generation-exhausted error and each of
    the [maxIterations] candidates is in the column; and when each of them
    is in the column, the error is the result. *)
Definition key_generation_outcome (column : KeyColumn) (maxIterations : Z)
           (w : World) (out : Result string * World) : Prop :=
  accounting (snd out) = accounting w
  /\ match fst out with
     | Ok key =>
         is_key32 key = true
         /\ ~ In key (column_values column (accounting w))
         /\ exists j, (j < Z.to_nat maxIterations)%nat /\ key = candidate w j
     | Err e =>
         e = generation_exhausted
         /\ forall j, (j < Z.to_nat maxIterations)%nat ->
                      In (candidate w j) (column_values column (accounting w))
     end
  /\ ((forall j, (j < Z.to_nat maxIterations)%nat ->
                 In (candidate w j) (column_values column (accounting w))) ->
      fst out = Err generation_exhausted).

(** The statement of the specification for one call of [storeSchematicRecord]:
    the record returned has the id and the [lastAccessed] of the row that
    the call inserted. *)
Definition returns_the_stored_row (record : SchematicRecord.t) (w : World)
  : Prop :=
  exists returned inserted,
    fst (storeSchematicRecord record w) = Ok returned
    /\ accounting (snd (storeSchematicRecord record w))
       = accounting w ++ [inserted]
    /\ SchematicRecord.id returned = Some (Row.id inserted)
    /\ SchematicRecord.last_accessed returned
       = Some (new_Date (Row.last_accessed inserted)).

(** The statement of the specification for one call [c] in state [w]: a row
    whose [expired] is set has the same [expired] after the call. *)
Definition expired_never_changes (c : Call) (w : World) : Prop :=
  forall r t,
    In r (accounting w) -> Row.expired r = Some t ->
    forall r', In r' (accounting (run_call c w)) -> Row.id r' = Row.id r ->
               Row.expired r' = Some t.

(** A row without its [expired] column: what no [UPDATE] of the class
    writes. *)
Definition erase_expired (r : Row.t) : Row.t := Row.set_expired None r.

(** The errors of the two lookups. *)
Definition not_found_delete_key : Error :=
  JsError "No data found for passed delete key".

Definition not_found_download_key : Error :=
  JsError "No data found for passed download key".

(** [WHERE expired IS NULL] and not [last_accessed <= cutoff]: the rows
    that a sweep with this cutoff leaves unexpired. *)
Definition survives (cutoff : Z) (r : Row.t) : bool :=
  is_null (Row.expired r) && negb (Row.last_accessed r <=? cutoff).

(** ** Sample states *)

Module Sample.
Definition row1 : Row.t :=
  Row.mk 1 "00000000000000000000000000000001"
           "10000000000000000000000000000001"
           "castle.schem" 1000 None None (Some "schem"%string)
           (Some "1,2,3"%string) (Some "4,5,6"%string).

Definition row2 : Row.t :=
  Row.mk 2 "00000000000000000000000000000002"
           "10000000000000000000000000000002"
           "tower.schem" 5000 None None None None None.

Definition row3 : Row.t :=
  Row.mk 3 "00000000000000000000000000000003"
           "10000000000000000000000000000003"
           "bridge.schem" 2000 (Some 2500) None None None None.

(** A clock that advances by one millisecond per reading, from 10000. *)
Definition ticking (k : nat) : Z := 10000 + Z.of_nat k.

Definition zeros (k : nat) : nat := 0%nat.

Definition world : World := mkWorld [row1; row2; row3] 4 ticking 0 zeros 0.

Definition zeros32 : string := "00000000000000000000000000000000".

(** A table whose only row has the download key that the random source
    [zeros] generates, and one whose only row has it as delete key. *)
Definition world_download_zeros : World :=
  mkWorld [Row.mk 1 zeros32 "10000000000000000000000000000001"
                  "castle.schem" 1000 None None None None None]
          2 ticking 0 zeros 0.

(** The same table but for the download key of its row. *)
Definition world_download_other : World :=
  mkWorld [Row.mk 1 "00000000000000000000000000000002"
                  "10000000000000000000000000000001"
                  "castle.schem" 1000 None None None None None]
          2 ticking 0 zeros 0.

Definition world_delete_zeros : World :=
  mkWorld [Row.mk 1 "10000000000000000000000000000001" zeros32
                  "castle.schem" 1000 None None None None None]
          2 ticking 0 zeros 0.

Definition upload : SchematicRecord.t :=
  SchematicRecord.mk None "00000000000000000000000000000009"
                     "10000000000000000000000000000009"
                     "gate.schem" None None None None None None.

(** An upload that reuses the download key of [row1]. *)
Definition reupload : SchematicRecord.t :=
  SchematicRecord.mk None "00000000000000000000000000000001"
                     "10000000000000000000000000000008"
                     "copy.schem" None None None None None None.
End Sample.

(** ** Basic facts about the statements *)

Ltac run := unfold bind, ret, throw, Date_now, random_draw,
  Sql.select_all, Sql.select_unexpired, Sql.select_by_key,
  Sql.select_id_by_key, Sql.select_stale, Sql.update_expired,
  with_accounting in *; simpl in *.

Lemma update_row_id now p r : Row.id (Sql.update_row now p r) = Row.id r.
Proof. unfold Sql.update_row; destruct (id_matches p r); reflexivity. Qed.

Lemma update_row_download_key now p r :
  Row.download_key (Sql.update_row now p r) = Row.download_key r.
Proof. unfold Sql.update_row; destruct (id_matches p r); reflexivity. Qed.

Lemma update_row_delete_key now p r :
  Row.delete_key (Sql.update_row now p r) = Row.delete_key r.
Proof. unfold Sql.update_row; destruct (id_matches p r); reflexivity. Qed.

Lemma map_update_row_ids now p rows :
  map Row.id (map (Sql.update_row now p) rows) = map Row.id rows.
Proof.
  rewrite map_map. apply map_ext. intro r. apply update_row_id.
Qed.

Lemma map_update_row_download now p rows :
  map Row.download_key (map (Sql.update_row now p) rows)
  = map Row.download_key rows.
Proof.
  rewrite map_map. apply map_ext. intro r. apply update_row_download_key.
Qed.

Lemma map_update_row_delete now p rows :
  map Row.delete_key (map (Sql.update_row now p) rows)
  = map Row.delete_key rows.
Proof.
  rewrite map_map. apply map_ext. intro r. apply update_row_delete_key.
Qed.

(** An [UPDATE] whose [WHERE] matches no row writes nothing. *)
Lemma update_no_match now p rows :
  (forall r, In r rows -> id_matches p r = false) ->
  map (Sql.update_row now p) rows = rows
  /\ filter (id_matches p) rows = [].
Proof.
  induction rows as [|r rest IH]; intros H; simpl.
  - split; reflexivity.
  - assert (Hr : id_matches p r = false) by (apply H; left; reflexivity).
    destruct IH as [IH1 IH2]; [intros; apply H; right; assumption|].
    unfold Sql.update_row at 1. rewrite Hr, IH1, IH2. split; reflexivity.
Qed.

Lemma filter_match_nonempty p rows r :
  In r rows -> id_matches p r = true ->
  (0 < List.length (filter (id_matches p) rows))%nat.
Proof.
  intros Hin Hm.
  assert (Hf : In r (filter (id_matches p) rows))
    by (apply filter_In; split; assumption).
  destruct (filter (id_matches p) rows); [contradiction | simpl; lia].
Qed.

(** A key that is not in the column selects no row. *)
Lemma select_by_key_absent column rows key :
  ~ In key (map (column_of column) rows) ->
  filter (fun x => String.eqb (column_of column x) key) rows = [].
Proof.
  induction rows as [|x xs IH]; intros Hnotin; [reflexivity|].
  simpl. destruct (String.eqb_spec (column_of column x) key) as [E|E].
  - exfalso. apply Hnotin. left. exact E.
  - apply IH. intro Hc. apply Hnotin. right. exact Hc.
Qed.

(** In a column without duplicates a key selects the row that holds it. *)
Lemma select_by_key_unique column rows r :
  NoDup (map (column_of column) rows) ->
  In r rows ->
  filter (fun x => String.eqb (column_of column x) (column_of column r)) rows
  = [r].
Proof.
  induction rows as [|h rest IH]; intros Hnd Hin; [contradiction|].
  simpl in Hnd. inversion Hnd as [|k ks Hnotin Hnd']; subst.
  simpl. destruct Hin as [Heq | Hin].
  - subst h. rewrite String.eqb_refl. f_equal.
    apply select_by_key_absent. exact Hnotin.
  - destruct (String.eqb_spec (column_of column h) (column_of column r))
      as [E|E].
    + exfalso. apply Hnotin. rewrite E. apply in_map. exact Hin.
    + apply IH; assumption.
Qed.

Lemma wf_column column w :
  wf w -> NoDup (map (column_of column) (accounting w)).
Proof.
  intros [_ _ Hd He]. destruct column; simpl.
  - exact He.
  - exact Hd.
Qed.

(** Looking a stored row up by one of its keys returns the transformed
    row, and nothing is written. *)
Lemma getSchematicRecordByDownloadKey_stored w r :
  wf w -> In r (accounting w) ->
  getSchematicRecordByDownloadKey (Row.download_key r) w
  = (Ok (transformRowToRecord r), w).
Proof.
  intros Hwf Hin. unfold getSchematicRecordByDownloadKey. run.
  pose proof (select_by_key_unique col_download_key (accounting w) r
                (wf_column col_download_key w Hwf) Hin) as Hsel.
  simpl in Hsel. rewrite Hsel. reflexivity.
Qed.

Lemma getSchematicRecordByDeleteKey_stored w r :
  wf w -> In r (accounting w) ->
  getSchematicRecordByDeleteKey (Row.delete_key r) w
  = (Ok (transformRowToRecord r), w).
Proof.
  intros Hwf Hin. unfold getSchematicRecordByDeleteKey. run.
  pose proof (select_by_key_unique col_delete_key (accounting w) r
                (wf_column col_delete_key w Hwf) Hin) as Hsel.
  simpl in Hsel. rewrite Hsel. reflexivity.
Qed.

(** The transformed row agrees with the row on every field but [pos2],
    as long as its timestamps are not 0. *)
Lemma transformRowToRecord_fields row :
  Row.last_accessed row <> 0 -> Row.expired row <> Some 0 ->
  transformRowToRecord row
  = let s := recordOfRow_spec row in
    SchematicRecord.mk
      (SchematicRecord.id s) (SchematicRecord.downloadKey s)
      (SchematicRecord.deleteKey s) (SchematicRecord.fileName s)
      (SchematicRecord.expired s) (SchematicRecord.last_accessed s)
      (SchematicRecord.uploader s) (SchematicRecord.schem_type s)
      (SchematicRecord.pos1 s) (Row.pos1 row).
Proof.
  intros Hl He. unfold transformRowToRecord, recordOfRow_spec, truthy. simpl.
  destruct (Z.eqb_spec (Row.last_accessed row) 0) as [E|_]; [contradiction|].
  destruct (Row.expired row) as [e|]; simpl; [|reflexivity].
  destruct (Z.eqb_spec e 0) as [E|_]; [subst; contradiction|reflexivity].
Qed.

(** ** Lookup by key *)

(** C1 (the code departs from it): a stored row whose [pos1] and [pos2]
    differ is looked up by its download key and by its delete key; both
    lookups succeed with the transformed row, whose [pos2] is the row's
    [pos1] ("1,2,3") and not the row's [pos2] ("4,5,6"), so the record
    returned is not the record that carries exactly the row's fields. *)
Theorem C1_lookup_returns_pos1_in_pos2 :
  let r := Sample.row1 in
  In r (accounting Sample.world)
  /\ (exists rec,
        getSchematicRecordByDownloadKey (Row.download_key r) Sample.world
        = (Ok rec, Sample.world)
        /\ SchematicRecord.pos2 rec = Some "1,2,3"%string
        /\ rec <> recordOfRow_spec r)
  /\ (exists rec,
        getSchematicRecordByDeleteKey (Row.delete_key r) Sample.world
        = (Ok rec, Sample.world)
        /\ SchematicRecord.pos2 rec = Some "1,2,3"%string
        /\ rec <> recordOfRow_spec r)
  /\ Row.pos2 r = Some "4,5,6"%string.
Proof.
  simpl. split; [left; reflexivity|].
  split; [|split; [|reflexivity]];
    (eexists; split; [reflexivity|]; split; [reflexivity|]; discriminate).
Qed.

(** ** Expiring one record *)

Lemma expireSchematicRecord_eq i w :
  expireSchematicRecord i w
  = ((if Z.of_nat (List.length (filter (id_matches (Some i)) (accounting w)))
          <? 1
      then Err not_found_id else Ok tt),
     advance_clock 1
       (map (Sql.update_row (clock w (clock_reads w)) (Some i)) (accounting w))
       w).
Proof.
  unfold expireSchematicRecord, advance_clock. run.
  replace (clock_reads w + 1)%nat with (S (clock_reads w)) by lia.
  destruct (Z.of_nat _ <? 1); reflexivity.
Qed.

Lemma expireSchematicRecord_unknown i w :
  (forall r, In r (accounting w) -> Row.id r <> i) ->
  fst (expireSchematicRecord i w) = Err not_found_id
  /\ accounting (snd (expireSchematicRecord i w)) = accounting w.
Proof.
  intros Hnone. rewrite expireSchematicRecord_eq. simpl.
  destruct (update_no_match (clock w (clock_reads w)) (Some i) (accounting w))
    as [Hmap Hfil].
  { intros r Hin. simpl. apply Z.eqb_neq. apply Hnone. exact Hin. }
  rewrite Hmap, Hfil. simpl. split; reflexivity.
Qed.

Lemma expireSchematicRecord_known i w r :
  In r (accounting w) -> Row.id r = i ->
  fst (expireSchematicRecord i w) = Ok tt
  /\ In (Row.set_expired (Some (clock w (clock_reads w))) r)
        (accounting (snd (expireSchematicRecord i w)))
  /\ (forall r', In r' (accounting w) -> Row.id r' <> i ->
        In r' (accounting (snd (expireSchematicRecord i w)))).
Proof.
  intros Hin Hid. rewrite expireSchematicRecord_eq. simpl.
  assert (Hm : id_matches (Some i) r = true)
    by (simpl; apply Z.eqb_eq; exact Hid).
  pose proof (filter_match_nonempty _ _ _ Hin Hm) as Hlen.
  replace (Z.of_nat _ <? 1) with false by (symmetry; apply Z.ltb_ge; lia).
  split; [reflexivity|]. split.
  - apply in_map_iff. exists r. split; [|exact Hin].
    unfold Sql.update_row. rewrite Hm. reflexivity.
  - intros r' Hin' Hne. apply in_map_iff. exists r'. split; [|exact Hin'].
    unfold Sql.update_row. simpl.
    replace (Row.id r' =? i) with false
      by (symmetry; apply Z.eqb_neq; exact Hne).
    reflexivity.
Qed.

(** C6: [expireSchematicRecord] on an id that no row carries fails with
    the not-found error and leaves the table as it was; on the id of a
    stored row it succeeds, that row's [expired] becomes the reading of the
    clock taken by the call, and the rows of other ids stay. *)
Theorem C6_expireSchematicRecord_unknown_and_known (recordId : Z) (w : World) :
  ((forall r, In r (accounting w) -> Row.id r <> recordId) ->
     fst (expireSchematicRecord recordId w) = Err not_found_id
     /\ accounting (snd (expireSchematicRecord recordId w)) = accounting w)
  /\
  (forall r, In r (accounting w) -> Row.id r = recordId ->
     fst (expireSchematicRecord recordId w) = Ok tt
     /\ In (Row.set_expired (Some (clock w (clock_reads w))) r)
           (accounting (snd (expireSchematicRecord recordId w)))
     /\ (forall r', In r' (accounting w) -> Row.id r' <> recordId ->
           In r' (accounting (snd (expireSchematicRecord recordId w))))).
Proof.
  split.
  - apply expireSchematicRecord_unknown.
  - intros r. apply expireSchematicRecord_known.
Qed.

Lemma C6_witness :
  (fst (expireSchematicRecord 99 Sample.world) = Err not_found_id
   /\ accounting (snd (expireSchematicRecord 99 Sample.world))
      = accounting Sample.world)
  /\ (fst (expireSchematicRecord 2 Sample.world) = Ok tt
      /\ In (Row.set_expired (Some 10000) Sample.row2)
            (accounting (snd (expireSchematicRecord 2 Sample.world)))
      /\ (forall r', In r' (accounting Sample.world) -> Row.id r' <> 2 ->
            In r' (accounting (snd (expireSchematicRecord 2 Sample.world))))).
Proof.
  split.
  - apply (proj1 (C6_expireSchematicRecord_unknown_and_known 99 Sample.world)).
    intros r Hin. simpl in Hin.
    destruct Hin as [H|[H|[H|[]]]]; subst r; simpl; lia.
  - apply (proj2 (C6_expireSchematicRecord_unknown_and_known 2 Sample.world)
                 Sample.row2).
    + simpl. right. left. reflexivity.
    + reflexivity.
Defined.

(** C7: after [expireSchematicRecord i] succeeded on the stored row [r] of
    id [i], no record of id [i] is in the result of
    [getAllUnexpiredRecords], and the record of the row, now expired, is in
    the result of [getAllRecords]. *)
Theorem C7_expired_record_leaves_unexpired_listing
        (i : Z) (w : World) (r : Row.t) :
  In r (accounting w) -> Row.id r = i ->
  let w1 := snd (expireSchematicRecord i w) in
  fst (expireSchematicRecord i w) = Ok tt
  /\ exists unexpired all,
       getAllUnexpiredRecords w1 = (Ok unexpired, w1)
       /\ getAllRecords w1 = (Ok all, w1)
       /\ (forall rec, In rec unexpired -> SchematicRecord.id rec <> Some i)
       /\ In (transformRowToRecord
                (Row.set_expired (Some (clock w (clock_reads w))) r)) all
       /\ SchematicRecord.id
            (transformRowToRecord
               (Row.set_expired (Some (clock w (clock_reads w))) r)) = Some i.
Proof.
  intros Hin Hid w1.
  destruct (expireSchematicRecord_known i w r Hin Hid) as [Hok [Hset _]].
  split; [exact Hok|].
  exists (map transformRowToRecord
            (filter (fun x => is_null (Row.expired x)) (accounting w1))),
         (map transformRowToRecord (accounting w1)).
  split; [reflexivity|]. split; [reflexivity|]. split; [|split].
  - intros rec Hrec Heq.
    apply in_map_iff in Hrec. destruct Hrec as [x [Hx Hxin]].
    apply filter_In in Hxin. destruct Hxin as [Hxin Hnull].
    subst rec. simpl in Heq. injection Heq as Heq.
    unfold w1 in Hxin. rewrite expireSchematicRecord_eq in Hxin.
    simpl in Hxin. apply in_map_iff in Hxin.
    destruct Hxin as [y [Hy _]]. subst x.
    rewrite update_row_id in Heq.
    unfold Sql.update_row in Hnull. simpl in Hnull.
    replace (Row.id y =? i) with true in Hnull
      by (symmetry; apply Z.eqb_eq; exact Heq).
    discriminate.
  - apply in_map. exact Hset.
  - simpl. f_equal. exact Hid.
Qed.

Lemma C7_witness :
  fst (expireSchematicRecord 1 Sample.world) = Ok tt
  /\ exists unexpired all,
       getAllUnexpiredRecords (snd (expireSchematicRecord 1 Sample.world))
       = (Ok unexpired, snd (expireSchematicRecord 1 Sample.world))
       /\ getAllRecords (snd (expireSchematicRecord 1 Sample.world))
          = (Ok all, snd (expireSchematicRecord 1 Sample.world))
       /\ (forall rec, In rec unexpired -> SchematicRecord.id rec <> Some 1)
       /\ In (transformRowToRecord
                (Row.set_expired (Some 10000) Sample.row1)) all
       /\ SchematicRecord.id
            (transformRowToRecord
               (Row.set_expired (Some 10000) Sample.row1)) = Some 1.
Proof.
  apply (C7_expired_record_leaves_unexpired_listing 1 Sample.world Sample.row1).
  - simpl. left. reflexivity.
  - reflexivity.
Defined.

(** ** The expiry sweep *)

Lemma advance_clock_0 w : advance_clock 0 (accounting w) w = w.
Proof.
  destruct w. unfold advance_clock. simpl. rewrite Nat.add_0_r. reflexivity.
Qed.

(** The loop of the sweep: one reading of the clock and one [UPDATE] per
    selected record. *)
Lemma sweep_loop_eq selected : forall w,
  for_of selected expire_one w
  = (Ok tt,
     advance_clock (List.length selected)
       (map (row_updates (clock w) (clock_reads w) selected) (accounting w))
       w).
Proof.
  induction selected as [|s rest IH]; intros w.
  - simpl. unfold ret. rewrite map_id, advance_clock_0. reflexivity.
  - simpl. unfold bind at 1. unfold expire_one at 1. run.
    rewrite IH. simpl. unfold advance_clock. simpl.
    rewrite map_map. do 2 f_equal. lia.
Qed.

Lemma expireSchematicRecords_eq d w :
  expireSchematicRecords d w
  = let selected := filter (stale (clock w (clock_reads w) - d)) (accounting w)
    in (Ok (map transformRowToRecord selected),
        advance_clock (S (List.length selected))
          (map (row_updates (clock w) (S (clock_reads w))
                            (map transformRowToRecord selected))
               (accounting w))
          w).
Proof.
  unfold expireSchematicRecords, bind at 1, Date_now at 1.
  unfold bind at 1, Sql.select_stale at 1. cbv zeta. cbn [accounting clock clock_reads].
  destruct (filter (stale (clock w (clock_reads w) - d)) (accounting w))
    as [|s rest] eqn:Hsel.
  - simpl. unfold ret, advance_clock. simpl. rewrite map_id.
    do 2 f_equal. lia.
  - cbn [map List.length Nat.eqb]. unfold bind at 1.
    rewrite sweep_loop_eq. unfold ret, advance_clock.
    cbn [accounting clock clock_reads auto_increment entropy entropy_reads
         List.length].
    rewrite length_map. do 2 f_equal. lia.
Qed.

Lemma row_updates_notin clk sel : forall k x,
  ~ In (Some (Row.id x)) (map SchematicRecord.id sel) ->
  row_updates clk k sel x = x.
Proof.
  induction sel as [|s rest IH]; intros k x Hnotin; [reflexivity|].
  simpl. unfold Sql.update_row.
  replace (id_matches (SchematicRecord.id s) x) with false.
  - apply IH. intro Hc. apply Hnotin. right. exact Hc.
  - symmetry. unfold id_matches.
    destruct (SchematicRecord.id s) as [i|] eqn:Hs; [|reflexivity].
    apply Z.eqb_neq. intro Heq. apply Hnotin. left. simpl.
    rewrite Hs, Heq. reflexivity.
Qed.

Lemma selected_ids c rows i :
  In (Some i) (map SchematicRecord.id
                   (map transformRowToRecord (filter (stale c) rows))) ->
  In i (map Row.id rows).
Proof.
  rewrite map_map. intros Hin. apply in_map_iff in Hin.
  destruct Hin as [x [Hx Hxin]]. simpl in Hx. injection Hx as Hx. subst i.
  apply in_map. apply filter_In in Hxin. apply Hxin.
Qed.

(** With [id] a primary key, the updates of the sweep mark the stale rows,
    each with the reading of the clock taken for it, and no other row. *)
Lemma sweep_updates_mark_stale c clk rows : forall k,
  NoDup (map Row.id rows) ->
  map (row_updates clk k (map transformRowToRecord (filter (stale c) rows)))
      rows
  = mark_stale c clk k rows.
Proof.
  induction rows as [|r rest IH]; intros k Hnd; [reflexivity|].
  simpl in Hnd. inversion Hnd as [|i ids Hnotin Hnd']; subst.
  assert (Hfresh : ~ In (Some (Row.id r))
             (map SchematicRecord.id
                  (map transformRowToRecord (filter (stale c) rest)))).
  { intro Hc. apply Hnotin. apply (selected_ids c). exact Hc. }
  simpl. destruct (stale c r) eqn:Hst.
  - simpl. f_equal.
    + unfold Sql.update_row. simpl. rewrite Z.eqb_refl.
      apply row_updates_notin. simpl. exact Hfresh.
    + rewrite <- IH by exact Hnd'. apply map_ext_in. intros x Hx.
      unfold Sql.update_row. simpl.
      replace (Row.id x =? Row.id r) with false; [reflexivity|].
      symmetry. apply Z.eqb_neq. intro Heq. apply Hnotin.
      rewrite <- Heq. apply in_map. exact Hx.
  - f_equal.
    + apply row_updates_notin. exact Hfresh.
    + apply IH. exact Hnd'.
Qed.

Lemma mark_stale_keeps c clk rows r : forall k,
  In r rows -> stale c r = false -> In r (mark_stale c clk k rows).
Proof.
  induction rows as [|h rest IH]; intros k Hin Hst; [contradiction|].
  simpl. destruct Hin as [Heq|Hin].
  - subst h. rewrite Hst. left. reflexivity.
  - destruct (stale c h); right; apply IH; assumption.
Qed.

Lemma mark_stale_nth c clk rows : forall k j r,
  nth_error (filter (stale c) rows) j = Some r ->
  In (Row.set_expired (Some (clk (k + j)%nat)) r) (mark_stale c clk k rows).
Proof.
  induction rows as [|h rest IH]; intros k j r Hnth.
  - destruct j; discriminate.
  - simpl in *. destruct (stale c h).
    + destruct j as [|j]; simpl in Hnth.
      * injection Hnth as Hnth. subst h. rewrite Nat.add_0_r.
        left. reflexivity.
      * right. replace (k + S j)%nat with (S k + j)%nat by lia.
        apply IH. exact Hnth.
    + right. apply IH. exact Hnth.
Qed.

Lemma stale_iff c r :
  stale c r = true <-> Row.expired r = None /\ Row.last_accessed r <= c.
Proof.
  unfold stale, is_null. rewrite andb_true_iff, Z.leb_le.
  destruct (Row.expired r); intuition discriminate.
Qed.

(** C8: when no unexpired row has [last_accessed] at or before the cutoff,
    [expireSchematicRecords] returns the empty list and writes nothing:
    the table and its AUTO_INCREMENT counter are as before. *)
Theorem C8_sweep_without_eligible_rows (d : Z) (w : World) :
  (forall r, In r (accounting w) -> Row.expired r = None ->
             clock w (clock_reads w) - d < Row.last_accessed r) ->
  fst (expireSchematicRecords d w) = Ok []
  /\ accounting (snd (expireSchematicRecords d w)) = accounting w
  /\ auto_increment (snd (expireSchematicRecords d w)) = auto_increment w.
Proof.
  intros Hnone. rewrite expireSchematicRecords_eq.
  assert (Hsel : filter (stale (clock w (clock_reads w) - d)) (accounting w)
                 = []).
  { destruct (filter _ (accounting w)) as [|x xs] eqn:Hf; [reflexivity|].
    assert (Hx : In x (filter (stale (clock w (clock_reads w) - d))
                              (accounting w)))
      by (rewrite Hf; left; reflexivity).
    apply filter_In in Hx. destruct Hx as [Hxin Hst].
    apply stale_iff in Hst. destruct Hst as [He Hl].
    specialize (Hnone x Hxin He). lia. }
  cbv zeta. rewrite Hsel. simpl. rewrite map_id. repeat split.
Qed.

Lemma C8_witness :
  fst (expireSchematicRecords 9500 Sample.world) = Ok []
  /\ accounting (snd (expireSchematicRecords 9500 Sample.world))
     = accounting Sample.world
  /\ auto_increment (snd (expireSchematicRecords 9500 Sample.world))
     = auto_increment Sample.world.
Proof.
  apply (C8_sweep_without_eligible_rows 9500 Sample.world).
  intros r Hin Hexp. simpl in Hin.
  destruct Hin as [H|[H|[H|[]]]]; subst r; simpl in *;
    try discriminate; unfold Sample.ticking; simpl; lia.
Defined.

Lemma Sample_world_wf : wf Sample.world.
Proof.
  constructor; simpl.
  - repeat constructor; simpl; intuition discriminate.
  - repeat constructor.
  - repeat constructor; simpl; intuition discriminate.
  - repeat constructor; simpl; intuition discriminate.
Qed.

(** The sweep, in full: what it selects, returns and writes. *)
Lemma sweep_characterisation (d : Z) (w : World) :
  wf w ->
  let cutoff := clock w (clock_reads w) - d in
  let selected := filter (stale cutoff) (accounting w) in
  let w' := snd (expireSchematicRecords d w) in
  (forall r, In r selected <->
             In r (accounting w) /\ Row.expired r = None
             /\ Row.last_accessed r <= cutoff)
  /\ fst (expireSchematicRecords d w) = Ok (map transformRowToRecord selected)
  /\ accounting w'
     = mark_stale cutoff (clock w) (S (clock_reads w)) (accounting w)
  /\ (forall r, In r (accounting w) -> ~ In r selected -> In r (accounting w'))
  /\ (forall k r, nth_error selected k = Some r ->
        In (Row.set_expired (Some (clock w (S (clock_reads w) + k)%nat)) r)
           (accounting w'))
  /\ List.length (accounting w') = List.length (accounting w).
Proof.
  intros Hwf cutoff selected w'.
  assert (Htab : accounting w'
            = mark_stale cutoff (clock w) (S (clock_reads w)) (accounting w)).
  { unfold w'. rewrite expireSchematicRecords_eq. simpl.
    apply sweep_updates_mark_stale. apply (wf_ids w Hwf). }
  split; [|split; [|split; [|split; [|split]]]].
  - intros r. unfold selected. rewrite filter_In, stale_iff. reflexivity.
  - rewrite expireSchematicRecords_eq. reflexivity.
  - exact Htab.
  - intros r Hin Hnot. rewrite Htab. apply mark_stale_keeps; [exact Hin|].
    destruct (stale cutoff r) eqn:Hst; [|reflexivity].
    exfalso. apply Hnot. apply filter_In. split; assumption.
  - intros k r Hnth. rewrite Htab. apply mark_stale_nth. exact Hnth.
  - unfold w'. rewrite expireSchematicRecords_eq. simpl. apply length_map.
Qed.

(** C4: [expireSchematicRecords d] reads the clock, takes the cutoff
    [now - d], selects exactly the unexpired rows whose [last_accessed] is
    at or before the cutoff, and returns the records of the selected rows;
    afterwards every selected row is expired with the reading of the clock
    taken for it, and every other row (accessed after the cutoff, or
    expired before) is in the table as it was. *)
Theorem C4_sweep_expires_exactly_the_stale_rows (d : Z) (w : World) :
  wf w ->
  let cutoff := clock w (clock_reads w) - d in
  let selected := filter (stale cutoff) (accounting w) in
  let w' := snd (expireSchematicRecords d w) in
  (forall r, In r selected <->
             In r (accounting w) /\ Row.expired r = None
             /\ Row.last_accessed r <= cutoff)
  /\ fst (expireSchematicRecords d w) = Ok (map transformRowToRecord selected)
  /\ accounting w'
     = mark_stale cutoff (clock w) (S (clock_reads w)) (accounting w)
  /\ (forall r, In r (accounting w) -> ~ In r selected -> In r (accounting w'))
  /\ (forall k r, nth_error selected k = Some r ->
        In (Row.set_expired (Some (clock w (S (clock_reads w) + k)%nat)) r)
           (accounting w'))
  /\ List.length (accounting w') = List.length (accounting w).
Proof.
  exact (sweep_characterisation d w).
Qed.

Lemma C4_witness :
  fst (expireSchematicRecords 6000 Sample.world)
  = Ok [transformRowToRecord Sample.row1]
  /\ accounting (snd (expireSchematicRecords 6000 Sample.world))
     = [Row.set_expired (Some 10001) Sample.row1; Sample.row2; Sample.row3].
Proof.
  pose proof (C4_sweep_expires_exactly_the_stale_rows 6000 Sample.world
                Sample_world_wf) as H.
  cbv zeta in H. destruct H as [_ [Hres [Htab _]]].
  split.
  - rewrite Hres. reflexivity.
  - rewrite Htab. reflexivity.
Defined.

(** C9: when the sweep selects some rows, the records it returns are the
    rows as they were read before the updates: each has [expired] unset,
    while the row it was read from is now expired in the table, the k-th
    selected row with the (k+1)-th reading of the clock after the one of
    the cutoff; and there is a sweep that leaves two rows with different
    [expired] timestamps. *)
Theorem C9_sweep_returns_pre_update_snapshots (d : Z) (w : World) :
  wf w ->
  let selected :=
    filter (stale (clock w (clock_reads w) - d)) (accounting w) in
  let w' := snd (expireSchematicRecords d w) in
  selected <> [] ->
  fst (expireSchematicRecords d w) = Ok (map transformRowToRecord selected)
  /\ (forall k r, nth_error selected k = Some r ->
        nth_error (map transformRowToRecord selected) k
        = Some (transformRowToRecord r)
        /\ SchematicRecord.expired (transformRowToRecord r) = None
        /\ In (Row.set_expired (Some (clock w (S (clock_reads w) + k)%nat)) r)
              (accounting w')
        /\ Row.expired
             (Row.set_expired (Some (clock w (S (clock_reads w) + k)%nat)) r)
           <> None)
  /\ (exists d0 w0 r1 r2 t1 t2,
        wf w0
        /\ In r1 (accounting w0) /\ In r2 (accounting w0)
        /\ In (Row.set_expired (Some t1) r1)
              (accounting (snd (expireSchematicRecords d0 w0)))
        /\ In (Row.set_expired (Some t2) r2)
              (accounting (snd (expireSchematicRecords d0 w0)))
        /\ t1 <> t2).
Proof.
  intros Hwf selected w' _.
  destruct (sweep_characterisation d w Hwf)
    as [Hsel [Hres [_ [_ [Hnth _]]]]].
  split; [exact Hres|]. split.
  - intros k r Hk. split; [|split; [|split]].
    + apply map_nth_error. exact Hk.
    + assert (Hin : In r selected) by (eapply nth_error_In; exact Hk).
      apply Hsel in Hin. destruct Hin as [_ [Hexp _]].
      simpl. rewrite Hexp. reflexivity.
    + apply Hnth. exact Hk.
    + simpl. discriminate.
  - exists 0, Sample.world, Sample.row1, Sample.row2, 10001, 10002.
    split; [exact Sample_world_wf|].
    simpl. intuition discriminate.
Qed.

Lemma C9_witness :
  fst (expireSchematicRecords 0 Sample.world)
  = Ok [transformRowToRecord Sample.row1; transformRowToRecord Sample.row2]
  /\ SchematicRecord.expired (transformRowToRecord Sample.row2) = None
  /\ In (Row.set_expired (Some 10002) Sample.row2)
        (accounting (snd (expireSchematicRecords 0 Sample.world))).
Proof.
  assert (Hne : filter (stale (clock Sample.world (clock_reads Sample.world)
                               - 0))
                       (accounting Sample.world) <> [])
    by (simpl; discriminate).
  pose proof (C9_sweep_returns_pre_update_snapshots 0 Sample.world
                Sample_world_wf Hne) as H.
  destruct H as [Hres [Hk _]].
  specialize (Hk 1%nat Sample.row2 eq_refl).
  destruct Hk as [_ [Hexp [Hin _]]].
  split; [|split].
  - rewrite Hres. reflexivity.
  - exact Hexp.
  - exact Hin.
Defined.

(** ** Storing a record *)

Lemma key_taken_iff column key rows :
  Sql.key_taken column key rows = true <-> In key (column_values column rows).
Proof.
  unfold Sql.key_taken, column_values. rewrite existsb_exists, in_map_iff.
  split; intros [r [H1 H2]]; exists r.
  - apply String.eqb_eq in H2. split; assumption.
  - split; [assumption|]. apply String.eqb_eq. assumption.
Qed.

Lemma key_free column key rows :
  ~ In key (column_values column rows) -> Sql.key_taken column key rows = false.
Proof.
  intros H. destruct (Sql.key_taken column key rows) eqn:E; [|reflexivity].
  exfalso. apply H. apply key_taken_iff. exact E.
Qed.

Lemma storeSchematicRecord_accepted record w :
  ~ In (SchematicRecord.downloadKey record)
       (column_values col_download_key (accounting w)) ->
  ~ In (SchematicRecord.deleteKey record)
       (column_values col_delete_key (accounting w)) ->
  storeSchematicRecord record w = (Ok record, stored record w).
Proof.
  intros Hd He. unfold storeSchematicRecord, Sql.insert. run.
  rewrite (key_free _ _ _ Hd), (key_free _ _ _ He). reflexivity.
Qed.

(** An [INSERT] is accepted when both keys are new; a rejected one leaves
    the table and its counter as they were. *)
Lemma storeSchematicRecord_table record w :
  (~ In (SchematicRecord.downloadKey record)
        (column_values col_download_key (accounting w))
   /\ ~ In (SchematicRecord.deleteKey record)
           (column_values col_delete_key (accounting w))
   /\ snd (storeSchematicRecord record w) = stored record w)
  \/ (accounting (snd (storeSchematicRecord record w)) = accounting w
      /\ auto_increment (snd (storeSchematicRecord record w))
         = auto_increment w).
Proof.
  unfold storeSchematicRecord, Sql.insert. run.
  destruct (Sql.key_taken col_download_key _ _) eqn:Hd;
    [right; split; reflexivity|].
  destruct (Sql.key_taken col_delete_key _ _) eqn:He;
    [right; split; reflexivity|].
  left. split; [|split; [|reflexivity]]; intro Hin;
    apply key_taken_iff in Hin; congruence.
Qed.

(** The UNIQUE columns reject a record whose key is in the table: nothing
    is inserted. *)
Lemma storeSchematicRecord_rejected record w :
  In (SchematicRecord.downloadKey record)
     (column_values col_download_key (accounting w))
  \/ In (SchematicRecord.deleteKey record)
        (column_values col_delete_key (accounting w)) ->
  (exists key_name,
      fst (storeSchematicRecord record w) = Err (ER_DUP_ENTRY key_name))
  /\ accounting (snd (storeSchematicRecord record w)) = accounting w.
Proof.
  intros Htaken. unfold storeSchematicRecord, Sql.insert. run.
  destruct (Sql.key_taken col_download_key _ _) eqn:Hd.
  - split; [eexists|]; reflexivity.
  - destruct (Sql.key_taken col_delete_key _ _) eqn:He.
    + split; [eexists|]; reflexivity.
    + exfalso. destruct Htaken as [H|H]; apply key_taken_iff in H; congruence.
Qed.

(** C3, as stated, fails: an upload without an id, stored in the sample
    table, comes back without an id and without [last_accessed], while the
    inserted row has id 4 and [last_accessed] 10000; and an upload whose
    download key is in the table is rejected, so no row is inserted and no
    record is returned. *)
Lemma C3_counterexample_returned_record_is_the_input :
  ~ returns_the_stored_row Sample.upload Sample.world
  /\ fst (storeSchematicRecord Sample.upload Sample.world) = Ok Sample.upload
  /\ accounting (snd (storeSchematicRecord Sample.upload Sample.world))
     = accounting Sample.world
       ++ [Row.mk 4 "00000000000000000000000000000009"
                  "10000000000000000000000000000009" "gate.schem" 10000
                  None None None None None]
  /\ ~ returns_the_stored_row Sample.reupload Sample.world.
Proof.
  split; [|split; [reflexivity | split; [reflexivity|]]].
  - intros [returned [inserted [Hres [_ [Hid _]]]]].
    simpl in Hres. injection Hres as Hres. subst returned.
    simpl in Hid. discriminate.
  - intros [returned [inserted [Hres _]]]. simpl in Hres. discriminate.
Qed.

(** C3 (amended): when the keys of the record are not yet in the table,
    [storeSchematicRecord] appends one row, whose id is the AUTO_INCREMENT
    value, whose [last_accessed] is the reading of the clock, whose
    [expired] is unset and whose other columns come from the record, and it
    returns the record it was given, unchanged. *)
Theorem C3_store_inserts_row_and_returns_its_input
        (record : SchematicRecord.t) (w : World) :
  ~ In (SchematicRecord.downloadKey record)
       (column_values col_download_key (accounting w)) ->
  ~ In (SchematicRecord.deleteKey record)
       (column_values col_delete_key (accounting w)) ->
  fst (storeSchematicRecord record w) = Ok record
  /\ accounting (snd (storeSchematicRecord record w))
     = accounting w ++ [inserted_row record w]
  /\ Row.id (inserted_row record w) = auto_increment w
  /\ Row.last_accessed (inserted_row record w) = clock w (clock_reads w)
  /\ Row.expired (inserted_row record w) = None
  /\ Row.download_key (inserted_row record w)
     = SchematicRecord.downloadKey record
  /\ Row.delete_key (inserted_row record w) = SchematicRecord.deleteKey record
  /\ Row.filename (inserted_row record w) = SchematicRecord.fileName record
  /\ Row.uploaded_by (inserted_row record w) = SchematicRecord.uploader record
  /\ Row.schem_type (inserted_row record w) = SchematicRecord.schem_type record
  /\ Row.pos1 (inserted_row record w) = SchematicRecord.pos1 record
  /\ Row.pos2 (inserted_row record w) = SchematicRecord.pos2 record.
Proof.
  intros Hd He. rewrite (storeSchematicRecord_accepted record w Hd He).
  simpl. repeat split.
Qed.

Lemma C3_witness :
  fst (storeSchematicRecord Sample.upload Sample.world) = Ok Sample.upload
  /\ accounting (snd (storeSchematicRecord Sample.upload Sample.world))
     = accounting Sample.world ++ [inserted_row Sample.upload Sample.world]
  /\ Row.id (inserted_row Sample.upload Sample.world) = 4
  /\ Row.last_accessed (inserted_row Sample.upload Sample.world) = 10000.
Proof.
  assert (Hd : ~ In (SchematicRecord.downloadKey Sample.upload)
                    (column_values col_download_key
                                   (accounting Sample.world)))
    by (simpl; intuition discriminate).
  assert (He : ~ In (SchematicRecord.deleteKey Sample.upload)
                    (column_values col_delete_key (accounting Sample.world)))
    by (simpl; intuition discriminate).
  destruct (C3_store_inserts_row_and_returns_its_input
              Sample.upload Sample.world Hd He)
    as [H1 [H2 [H3 [H4 _]]]].
  repeat split; assumption.
Defined.

(** ** Key generation *)

Lemma advance_entropy_0 w : advance_entropy 0 w = w.
Proof.
  destruct w. unfold advance_entropy. simpl. rewrite Nat.add_0_r. reflexivity.
Qed.

Lemma advance_entropy_add a b w :
  advance_entropy a (advance_entropy b w) = advance_entropy (b + a) w.
Proof.
  unfold advance_entropy. simpl. f_equal. lia.
Qed.

Lemma customAlphabet_eq alphabet size : forall w,
  customAlphabet alphabet size w
  = (Ok (letters alphabet (entropy w) (entropy_reads w) size),
     advance_entropy size w).
Proof.
  induction size as [|n IH]; intros w.
  - simpl. unfold ret. rewrite advance_entropy_0. reflexivity.
  - simpl. unfold bind at 1. unfold random_draw at 1.
    unfold bind at 1. rewrite IH. unfold ret, advance_entropy. simpl.
    do 2 f_equal. lia.
Qed.

Lemma ID_GENERATOR_eq w :
  ID_GENERATOR w = (Ok (candidate w 0), advance_entropy 32 w).
Proof.
  unfold candidate. change (32 * 0)%nat with 0%nat.
  rewrite advance_entropy_0. unfold ID_GENERATOR.
  rewrite customAlphabet_eq. reflexivity.
Qed.

Lemma candidate_letters w j :
  candidate w j
  = letters "0123456789abcdef" (entropy w) (entropy_reads w + 32 * j) 32.
Proof.
  unfold candidate, ID_GENERATOR. rewrite customAlphabet_eq. reflexivity.
Qed.

Lemma candidate_advance w j :
  candidate (advance_entropy 32 w) j = candidate w (S j).
Proof.
  unfold candidate. rewrite advance_entropy_add.
  replace (32 + 32 * j)%nat with (32 * S j)%nat by lia. reflexivity.
Qed.

Lemma pick_hex r :
  exists c, pick "0123456789abcdef" r = String c EmptyString
            /\ is_lower_hex c = true.
Proof.
  unfold pick. change (String.length "0123456789abcdef") with 16%nat.
  pose proof (Nat.mod_upper_bound r 16) as Hlt.
  remember (Nat.modulo r 16) as m eqn:Hm. clear Hm.
  do 16 (destruct m as [|m]; [eexists; split; reflexivity|]).
  lia.
Qed.

Lemma letters_hex rnd size : forall start,
  String.length (letters "0123456789abcdef" rnd start size) = size
  /\ all_lower_hex (letters "0123456789abcdef" rnd start size) = true.
Proof.
  induction size as [|n IH]; intros start; [split; reflexivity|].
  cbn [letters]. destruct (pick_hex (rnd start)) as [c [Hc Hhex]].
  rewrite Hc. destruct (IH (S start)) as [Hlen Hall].
  cbn [append String.length all_lower_hex]. rewrite Hlen, Hhex, Hall.
  split; reflexivity.
Qed.

(** Every candidate is a 32-character lowercase-hex string. *)
Lemma candidate_is_key32 w j : is_key32 (candidate w j) = true.
Proof.
  rewrite candidate_letters. unfold is_key32.
  destruct (letters_hex (entropy w) 32 (entropy_reads w + 32 * j)%nat)
    as [Hlen Hall].
  rewrite Hlen, Hall. reflexivity.
Qed.

Lemma select_id_length column key rows :
  (List.length
     (map Row.id
          (firstn 1 (filter (fun r => String.eqb (column_of column r) key)
                            rows))) =? 0)%nat
  = negb (Sql.key_taken column key rows).
Proof.
  induction rows as [|r rest IH]; [reflexivity|].
  simpl. destruct (String.eqb (column_of column r) key); [reflexivity|].
  exact IH.
Qed.

Lemma generateUniqueKey_loop_S column n w :
  generateUniqueKey_loop column (S n) w
  = if Sql.key_taken column (candidate w 0) (accounting w)
    then generateUniqueKey_loop column n (advance_entropy 32 w)
    else (Ok (candidate w 0), advance_entropy 32 w).
Proof.
  cbn [generateUniqueKey_loop]. unfold bind at 1. rewrite ID_GENERATOR_eq.
  unfold bind at 1, Sql.select_id_by_key at 1.
  rewrite select_id_length. cbn [accounting advance_entropy].
  destruct (Sql.key_taken column (candidate w 0) (accounting w)); reflexivity.
Qed.

(** The loop returns the first candidate that is not in the column, and
    fails when each of its [n] candidates is in the column. *)
Lemma generateUniqueKey_loop_spec column : forall n w,
  (exists j, (j < n)%nat
     /\ (forall i, (i < j)%nat ->
           In (candidate w i) (column_values column (accounting w)))
     /\ ~ In (candidate w j) (column_values column (accounting w))
     /\ generateUniqueKey_loop column n w
        = (Ok (candidate w j), advance_entropy (32 * S j) w))
  \/ ((forall i, (i < n)%nat ->
         In (candidate w i) (column_values column (accounting w)))
      /\ generateUniqueKey_loop column n w
         = (Err generation_exhausted, advance_entropy (32 * n) w)).
Proof.
  induction n as [|n IH]; intros w.
  - right. split; [intros i Hi; lia|].
    change (32 * 0)%nat with 0%nat. rewrite advance_entropy_0. reflexivity.
  - rewrite generateUniqueKey_loop_S.
    destruct (Sql.key_taken column (candidate w 0) (accounting w)) eqn:Htaken.
    + apply key_taken_iff in Htaken.
      destruct (IH (advance_entropy 32 w)) as [[j [Hj [Hbefore [Hfree Heq]]]]
                                              | [Hall Heq]].
      * left. exists (S j).
        cbn [accounting advance_entropy] in Hbefore, Hfree.
        rewrite candidate_advance in Hfree.
        split; [lia|]. split; [|split].
        -- intros i Hi. destruct i as [|i]; [exact Htaken|].
           rewrite <- candidate_advance. apply Hbefore. lia.
        -- exact Hfree.
        -- rewrite Heq, candidate_advance, advance_entropy_add.
           do 2 f_equal. lia.
      * right. cbn [accounting advance_entropy] in Hall. split.
        -- intros i Hi. destruct i as [|i]; [exact Htaken|].
           rewrite <- candidate_advance. apply Hall. lia.
        -- rewrite Heq, advance_entropy_add. do 2 f_equal. lia.
    + left. exists 0%nat. split; [lia|]. split; [intros i Hi; lia|].
      split; [|reflexivity].
      intro Hin. apply key_taken_iff in Hin. congruence.
Qed.

(** Key generation writes nothing. *)
Lemma generateUniqueKey_table column maxIterations w :
  accounting (snd (generateUniqueKey column maxIterations w)) = accounting w
  /\ auto_increment (snd (generateUniqueKey column maxIterations w))
     = auto_increment w.
Proof.
  unfold generateUniqueKey.
  destruct (generateUniqueKey_loop_spec column (Z.to_nat maxIterations) w)
    as [[j [_ [_ [_ Heq]]]] | [_ Heq]]; rewrite Heq; split; reflexivity.
Qed.

Lemma generateUniqueKey_outcome column maxIterations w :
  key_generation_outcome column maxIterations w
    (generateUniqueKey column maxIterations w).
Proof.
  unfold key_generation_outcome, generateUniqueKey.
  destruct (generateUniqueKey_loop_spec column (Z.to_nat maxIterations) w)
    as [[j [Hj [_ [Hfree Heq]]]] | [Hall Heq]]; rewrite Heq;
    cbn [fst snd accounting advance_entropy].
  - split; [reflexivity|]. split.
    + split; [apply candidate_is_key32|]. split; [exact Hfree|].
      exists j. split; [exact Hj | reflexivity].
    + intros Hall. exfalso. apply Hfree. apply Hall. exact Hj.
  - split; [reflexivity|]. split.
    + split; [reflexivity | exact Hall].
    + intros _. reflexivity.
Qed.

(** C5: for every [maxIterations] and every state, [generateDeletionKey]
    and [generateDownloadKey] either return a 32-character lowercase-hex
    string that is not in the column [delete_key] (respectively
    [download_key]), or fail with the generation-exhausted error, and they
    fail exactly when each of the [maxIterations] candidates drawn is
    already in that column; the table is not written. *)
Theorem C5_generated_key_is_fresh_or_generation_is_exhausted
        (maxIterations : Z) (w : World) :
  key_generation_outcome col_delete_key maxIterations w
    (generateDeletionKey maxIterations w)
  /\ key_generation_outcome col_download_key maxIterations w
       (generateDownloadKey maxIterations w).
Proof.
  split; apply generateUniqueKey_outcome.
Qed.

Lemma C5_witness :
  fst (generateDownloadKey 3 Sample.world_download_zeros)
  = Err generation_exhausted
  /\ fst (generateDownloadKey 3 Sample.world) = Ok Sample.zeros32.
Proof.
  split.
  - destruct (C5_generated_key_is_fresh_or_generation_is_exhausted
                3 Sample.world_download_zeros) as [_ [_ [_ Hfail]]].
    apply Hfail. intros j _. rewrite candidate_letters.
    left. reflexivity.
  - reflexivity.
Defined.

Lemma key_taken_column column key rows1 rows2 :
  column_values column rows1 = column_values column rows2 ->
  Sql.key_taken column key rows1 = Sql.key_taken column key rows2.
Proof.
  intros Hcol.
  destruct (Sql.key_taken column key rows1) eqn:E1;
    destruct (Sql.key_taken column key rows2) eqn:E2; try reflexivity.
  - apply key_taken_iff in E1. rewrite Hcol in E1.
    apply key_taken_iff in E1. congruence.
  - apply key_taken_iff in E2. rewrite <- Hcol in E2.
    apply key_taken_iff in E2. congruence.
Qed.

Lemma candidate_same_source w1 w2 j :
  entropy w1 = entropy w2 -> entropy_reads w1 = entropy_reads w2 ->
  candidate w1 j = candidate w2 j.
Proof.
  intros He Hr. rewrite !candidate_letters, He, Hr. reflexivity.
Qed.

(** The result of key generation depends on the table through the target
    column alone. *)
Lemma generateUniqueKey_loop_column column : forall n w1 w2,
  column_values column (accounting w1) = column_values column (accounting w2) ->
  entropy w1 = entropy w2 -> entropy_reads w1 = entropy_reads w2 ->
  fst (generateUniqueKey_loop column n w1)
  = fst (generateUniqueKey_loop column n w2).
Proof.
  induction n as [|n IH]; intros w1 w2 Hcol He Hr; [reflexivity|].
  rewrite !generateUniqueKey_loop_S.
  rewrite (candidate_same_source w1 w2 0 He Hr).
  rewrite (key_taken_column column _ _ _ Hcol).
  destruct (Sql.key_taken column (candidate w2 0) (accounting w2)).
  - apply IH; cbn [accounting entropy entropy_reads advance_entropy];
      [exact Hcol | exact He | rewrite Hr; reflexivity].
  - reflexivity.
Qed.

(** C10: the candidate is checked against the target column alone: two
    states that agree on the column [delete_key] (and on the random source)
    give [generateDeletionKey] the same result whatever their column
    [download_key] holds, and likewise with the columns exchanged; and
    there are tables of the schema in which the deletion key generated is a
    download key of the table, and the download key generated is a delete
    key of the table. *)
Theorem C10_uniqueness_is_checked_per_column :
  (forall maxIterations w1 w2,
      column_values col_delete_key (accounting w1)
      = column_values col_delete_key (accounting w2) ->
      entropy w1 = entropy w2 -> entropy_reads w1 = entropy_reads w2 ->
      fst (generateDeletionKey maxIterations w1)
      = fst (generateDeletionKey maxIterations w2))
  /\ (forall maxIterations w1 w2,
      column_values col_download_key (accounting w1)
      = column_values col_download_key (accounting w2) ->
      entropy w1 = entropy w2 -> entropy_reads w1 = entropy_reads w2 ->
      fst (generateDownloadKey maxIterations w1)
      = fst (generateDownloadKey maxIterations w2))
  /\ (exists w key,
        wf w /\ fst (generateDeletionKey 20 w) = Ok key
        /\ In key (column_values col_download_key (accounting w)))
  /\ (exists w key,
        wf w /\ fst (generateDownloadKey 20 w) = Ok key
        /\ In key (column_values col_delete_key (accounting w))).
Proof.
  split; [|split; [|split]].
  - intros n w1 w2. apply generateUniqueKey_loop_column.
  - intros n w1 w2. apply generateUniqueKey_loop_column.
  - exists Sample.world_download_zeros, Sample.zeros32.
    split; [|split; [reflexivity | left; reflexivity]].
    constructor; simpl; repeat constructor; simpl; intuition.
  - exists Sample.world_delete_zeros, Sample.zeros32.
    split; [|split; [reflexivity | left; reflexivity]].
    constructor; simpl; repeat constructor; simpl; intuition.
Qed.

Lemma C10_witness :
  fst (generateDeletionKey 20 Sample.world_download_zeros)
  = fst (generateDeletionKey 20 Sample.world_download_other).
Proof.
  apply (proj1 C10_uniqueness_is_checked_per_column
               20 Sample.world_download_zeros Sample.world_download_other);
    reflexivity.
Defined.

(** ** The invariant is kept, and what happens to an expired row *)

Lemma wf_same_columns w w' :
  map Row.id (accounting w') = map Row.id (accounting w) ->
  map Row.download_key (accounting w') = map Row.download_key (accounting w) ->
  map Row.delete_key (accounting w') = map Row.delete_key (accounting w) ->
  auto_increment w' = auto_increment w ->
  wf w -> wf w'.
Proof.
  intros Hi Hd He Ha [W1 W2 W3 W4].
  constructor; rewrite ?Hi, ?Hd, ?He, ?Ha; assumption.
Qed.

Lemma wf_same_table w w' :
  accounting w' = accounting w -> auto_increment w' = auto_increment w ->
  wf w -> wf w'.
Proof.
  intros Ht Ha. apply wf_same_columns; rewrite ?Ht; auto.
Qed.

Lemma row_updates_columns clk sel : forall k x,
  Row.id (row_updates clk k sel x) = Row.id x
  /\ Row.download_key (row_updates clk k sel x) = Row.download_key x
  /\ Row.delete_key (row_updates clk k sel x) = Row.delete_key x.
Proof.
  induction sel as [|s rest IH]; intros k x; [repeat split|].
  simpl. destruct (IH (S k) (Sql.update_row (clk k) (SchematicRecord.id s) x))
    as [H1 [H2 H3]].
  rewrite H1, H2, H3, update_row_id, update_row_download_key,
    update_row_delete_key.
  repeat split.
Qed.

Lemma wf_stored record w :
  ~ In (SchematicRecord.downloadKey record)
       (column_values col_download_key (accounting w)) ->
  ~ In (SchematicRecord.deleteKey record)
       (column_values col_delete_key (accounting w)) ->
  wf w -> wf (stored record w).
Proof.
  intros Hd He [W1 W2 W3 W4]. unfold column_values in Hd, He. simpl in Hd, He.
  assert (Hfresh : ~ In (auto_increment w) (map Row.id (accounting w))).
  { intro Hin. rewrite Forall_forall in W2. specialize (W2 _ Hin). lia. }
  assert (Hsnoc : forall (A : Type) (l : list A) (a : A),
             NoDup l -> ~ In a l -> NoDup (l ++ [a])).
  { intros A l a Hnd Hnot. apply NoDup_rev in Hnd.
    rewrite <- (rev_involutive (l ++ [a])). apply NoDup_rev.
    rewrite rev_app_distr. simpl. constructor; [|exact Hnd].
    rewrite <- in_rev. exact Hnot. }
  constructor; simpl; rewrite map_app; simpl.
  - apply Hsnoc; assumption.
  - apply Forall_app. split.
    + eapply Forall_impl; [|exact W2]. simpl. intros a Ha. lia.
    + constructor; [lia | constructor].
  - apply Hsnoc; assumption.
  - apply Hsnoc; assumption.
Qed.

Lemma lookup_leaves_state column key w (A : Type)
      (k : list Row.t -> M A) :
  (forall rows w0, snd (k rows w0) = w0) ->
  snd ((rows <- Sql.select_by_key column key ;; k rows) w) = w.
Proof.
  intros Hk. unfold bind, Sql.select_by_key. apply Hk.
Qed.

Lemma getSchematicRecordByDeleteKey_state key w :
  snd (getSchematicRecordByDeleteKey key w) = w.
Proof.
  unfold getSchematicRecordByDeleteKey. apply lookup_leaves_state.
  intros [|r rest] w0; reflexivity.
Qed.

Lemma getSchematicRecordByDownloadKey_state key w :
  snd (getSchematicRecordByDownloadKey key w) = w.
Proof.
  unfold getSchematicRecordByDownloadKey. apply lookup_leaves_state.
  intros [|r rest] w0; reflexivity.
Qed.

(** Every call keeps the invariant of the schema. *)
Lemma run_call_wf c w : wf w -> wf (run_call c w).
Proof.
  intros Hwf. destruct c; simpl.
  - exact Hwf.
  - exact Hwf.
  - rewrite getSchematicRecordByDeleteKey_state. exact Hwf.
  - rewrite getSchematicRecordByDownloadKey_state. exact Hwf.
  - rewrite expireSchematicRecord_eq. simpl.
    apply (wf_same_columns w); simpl; auto using map_update_row_ids,
      map_update_row_download, map_update_row_delete.
  - destruct (storeSchematicRecord_table record w) as [[Hd [He Hs]] | [Ht Ha]].
    + rewrite Hs. apply wf_stored; assumption.
    + apply (wf_same_table w); assumption.
  - rewrite expireSchematicRecords_eq. simpl.
    apply (wf_same_columns w); simpl; auto; rewrite map_map; apply map_ext;
      intro x; apply row_updates_columns.
  - destruct (generateUniqueKey_table col_delete_key maxIterations w)
      as [Ht Ha]. apply (wf_same_table w); assumption.
  - destruct (generateUniqueKey_table col_download_key maxIterations w)
      as [Ht Ha]. apply (wf_same_table w); assumption.
Qed.

Lemma run_calls_wf cs : forall w, wf w -> wf (run_calls cs w).
Proof.
  induction cs as [|c cs IH]; intros w Hwf; [exact Hwf|].
  simpl. apply IH. apply run_call_wf. exact Hwf.
Qed.

(** The state that [migrate] sets up satisfies the invariant. *)
Lemma fresh_world_wf clk rnd : wf (fresh_world clk rnd).
Proof. constructor; simpl; constructor. Qed.

(** [id] is a key: two rows of the table with one id are one row. *)
Lemma same_id_same_row rows r r' :
  NoDup (map Row.id rows) -> In r rows -> In r' rows ->
  Row.id r' = Row.id r -> r' = r.
Proof.
  induction rows as [|h rest IH]; intros Hnd Hin Hin' Hid; [contradiction|].
  simpl in Hnd. inversion Hnd as [|i ids Hnotin Hnd']; subst.
  destruct Hin as [E|Hin], Hin' as [E'|Hin'].
  - congruence.
  - subst h. exfalso. apply Hnotin. rewrite <- Hid. apply in_map. exact Hin'.
  - subst h. exfalso. apply Hnotin. rewrite Hid. apply in_map. exact Hin.
  - apply IH; assumption.
Qed.

(** A call other than [expireSchematicRecord] on its id leaves an expired
    row in the table as it is. *)
Lemma run_call_keeps_expired_row c w r t :
  wf w -> In r (accounting w) -> Row.expired r = Some t ->
  c <> call_expireSchematicRecord (Row.id r) ->
  In r (accounting (run_call c w)).
Proof.
  intros Hwf Hin Hexp Hc. destruct c; simpl.
  - exact Hin.
  - exact Hin.
  - rewrite getSchematicRecordByDeleteKey_state. exact Hin.
  - rewrite getSchematicRecordByDownloadKey_state. exact Hin.
  - rewrite expireSchematicRecord_eq. simpl.
    apply in_map_iff. exists r. split; [|exact Hin].
    unfold Sql.update_row. simpl.
    replace (Row.id r =? recordId) with false; [reflexivity|].
    symmetry. apply Z.eqb_neq. intro Heq. apply Hc. rewrite Heq. reflexivity.
  - destruct (storeSchematicRecord_table record w) as [[_ [_ Hs]] | [Ht _]].
    + rewrite Hs. simpl. apply in_or_app. left. exact Hin.
    + rewrite Ht. exact Hin.
  - rewrite expireSchematicRecords_eq. simpl.
    rewrite sweep_updates_mark_stale by (apply (wf_ids w Hwf)).
    apply mark_stale_keeps; [exact Hin|].
    unfold stale. rewrite Hexp. simpl. apply andb_false_r.
  - destruct (generateUniqueKey_table col_delete_key maxIterations w)
      as [Ht _]. unfold generateDeletionKey. rewrite Ht. exact Hin.
  - destruct (generateUniqueKey_table col_download_key maxIterations w)
      as [Ht _]. unfold generateDownloadKey. rewrite Ht. exact Hin.
Qed.

Lemma run_calls_keep_expired_row r t cs : forall w,
  wf w -> In r (accounting w) -> Row.expired r = Some t ->
  ~ In (call_expireSchematicRecord (Row.id r)) cs ->
  In r (accounting (run_calls cs w)).
Proof.
  induction cs as [|c cs IH]; intros w Hwf Hin Hexp Hcs; [exact Hin|].
  simpl. apply IH.
  - apply run_call_wf. exact Hwf.
  - apply (run_call_keeps_expired_row c w r t); try assumption.
    intro Heq. apply Hcs. left. exact Heq.
  - exact Hexp.
  - intro Hc. apply Hcs. right. exact Hc.
Qed.

Lemma expire_overwrites w r r' :
  wf w -> In r (accounting w) ->
  In r' (accounting (run_call (call_expireSchematicRecord (Row.id r)) w)) ->
  Row.id r' = Row.id r ->
  r' = Row.set_expired (Some (clock w (clock_reads w))) r.
Proof.
  intros Hwf Hin Hin' Hid. simpl in Hin'.
  rewrite expireSchematicRecord_eq in Hin'. simpl in Hin'.
  apply in_map_iff in Hin'. destruct Hin' as [y [Hy Hyin]]. subst r'.
  rewrite update_row_id in Hid.
  assert (y = r) by (apply (same_id_same_row (accounting w));
                     [apply (wf_ids w Hwf)| | |]; assumption).
  subst y. unfold Sql.update_row. simpl. rewrite Z.eqb_refl. reflexivity.
Qed.

Lemma call_is_expire_dec c i :
  {c = call_expireSchematicRecord i} + {c <> call_expireSchematicRecord i}.
Proof.
  destruct c; try (right; discriminate).
  destruct (Z.eq_dec recordId i) as [E|E].
  - left. rewrite E. reflexivity.
  - right. intro H. injection H as H. contradiction.
Qed.

(** C2, as stated, fails: row 3 of the sample table expired at 2500, and
    [expireSchematicRecord 3] sets its [expired] to 10000. *)
Lemma C2_counterexample_expire_twice :
  ~ expired_never_changes (call_expireSchematicRecord 3) Sample.world.
Proof.
  intros H.
  specialize (H Sample.row3 2500).
  assert (Hin : In Sample.row3 (accounting Sample.world))
    by (simpl; right; right; left; reflexivity).
  specialize (H Hin eq_refl (Row.set_expired (Some 10000) Sample.row3)).
  assert (Hin' : In (Row.set_expired (Some 10000) Sample.row3)
                    (accounting (run_call (call_expireSchematicRecord 3)
                                          Sample.world)))
    by (simpl; right; right; left; reflexivity).
  specialize (H Hin' eq_refl). simpl in H. discriminate.
Qed.

(** C2 (amended): in a table of the schema, a row whose [expired] is set
    stays in the table unchanged, and is the only row of its id, through
    every sequence of calls that holds no [expireSchematicRecord] on its
    id (the sweep, [storeSchematicRecord], the lookups, the listings and
    key generation never write it); [expireSchematicRecord] on its id
    overwrites its [expired] with the reading of the clock; and after any
    single call the [expired] of the row of that id is still set. *)
Theorem C2_expired_is_rewritten_only_by_expireSchematicRecord
        (w : World) (r : Row.t) (t : Z) :
  wf w -> In r (accounting w) -> Row.expired r = Some t ->
  (forall cs, ~ In (call_expireSchematicRecord (Row.id r)) cs ->
      In r (accounting (run_calls cs w))
      /\ (forall r', In r' (accounting (run_calls cs w)) ->
                     Row.id r' = Row.id r -> r' = r))
  /\ In (Row.set_expired (Some (clock w (clock_reads w))) r)
        (accounting (run_call (call_expireSchematicRecord (Row.id r)) w))
  /\ (forall r',
        In r' (accounting (run_call (call_expireSchematicRecord (Row.id r)) w))
        -> Row.id r' = Row.id r ->
        r' = Row.set_expired (Some (clock w (clock_reads w))) r)
  /\ (forall c r', In r' (accounting (run_call c w)) ->
                   Row.id r' = Row.id r -> Row.expired r' <> None).
Proof.
  intros Hwf Hin Hexp. split; [|split; [|split]].
  - intros cs Hcs.
    pose proof (run_calls_keep_expired_row r t cs w Hwf Hin Hexp Hcs) as Hkeep.
    split; [exact Hkeep|].
    intros r' Hin' Hid.
    apply (same_id_same_row (accounting (run_calls cs w))); try assumption.
    apply wf_ids. apply run_calls_wf. exact Hwf.
  - destruct (expireSchematicRecord_known (Row.id r) w r Hin eq_refl)
      as [_ [Hset _]]. exact Hset.
  - intros r'. apply expire_overwrites; assumption.
  - intros c r' Hin' Hid.
    destruct (call_is_expire_dec c (Row.id r)) as [E|E].
    + subst c. rewrite (expire_overwrites w r r' Hwf Hin Hin' Hid).
      simpl. discriminate.
    + pose proof (run_call_keeps_expired_row c w r t Hwf Hin Hexp E) as Hkeep.
      assert (r' = r).
      { apply (same_id_same_row (accounting (run_call c w))); try assumption.
        apply wf_ids. apply run_call_wf. exact Hwf. }
      subst r'. rewrite Hexp. discriminate.
Qed.

Lemma C2_witness :
  In Sample.row3
     (accounting
        (run_calls [call_expireSchematicRecords 0;
                    call_storeSchematicRecord Sample.upload;
                    call_expireSchematicRecord 1]
                   Sample.world))
  /\ In (Row.set_expired (Some 10000) Sample.row3)
        (accounting (run_call (call_expireSchematicRecord 3) Sample.world)).
Proof.
  assert (Hin : In Sample.row3 (accounting Sample.world))
    by (simpl; right; right; left; reflexivity).
  destruct (C2_expired_is_rewritten_only_by_expireSchematicRecord
              Sample.world Sample.row3 2500 Sample_world_wf Hin eq_refl)
    as [Hseq [Hover _]].
  split; [|exact Hover].
  apply Hseq. simpl. intros [H|[H|[H|[]]]]; discriminate.
Defined.

(** ** Further properties of the store *)

Lemma map_Some_NoDup (A : Type) (l : list A) :
  NoDup l -> NoDup (map Some l).
Proof.
  induction 1 as [|a l Hnotin Hnd IH]; simpl; constructor; [|exact IH].
  intro Hin. apply in_map_iff in Hin. destruct Hin as [b [Hb Hbin]].
  injection Hb as Hb. subst b. contradiction.
Qed.

(** X1: whatever calls are made on the store that [migrate] set up, the
    table keeps the constraints of its schema, and the records that
    [getAllRecords] lists have pairwise different ids, download keys and
    delete keys. *)
Theorem X1_reachable_tables_keep_the_schema
        (clk : nat -> Z) (rnd : nat -> nat) (cs : list Call) :
  let w := run_calls cs (fresh_world clk rnd) in
  wf w
  /\ exists recs,
       getAllRecords w = (Ok recs, w)
       /\ NoDup (map SchematicRecord.id recs)
       /\ NoDup (map SchematicRecord.downloadKey recs)
       /\ NoDup (map SchematicRecord.deleteKey recs).
Proof.
  intros w.
  assert (Hwf : wf w) by (apply run_calls_wf, fresh_world_wf).
  split; [exact Hwf|].
  exists (map transformRowToRecord (accounting w)).
  split; [reflexivity|]. destruct Hwf as [W1 _ W3 W4].
  rewrite !map_map. simpl. split; [|split].
  - rewrite <- (map_map Row.id Some). apply map_Some_NoDup. exact W1.
  - exact W3.
  - exact W4.
Qed.

(** A key that is in the column selects a row that holds it. *)
Lemma select_by_key_present column key rows :
  In key (column_values column rows) ->
  exists r rest,
    filter (fun x => String.eqb (column_of column x) key) rows = r :: rest
    /\ In r rows /\ column_of column r = key.
Proof.
  intros Hin. apply in_map_iff in Hin. destruct Hin as [r0 [Hk Hr0]].
  assert (Hf : In r0 (filter (fun x => String.eqb (column_of column x) key)
                             rows)).
  { apply filter_In. split; [exact Hr0|]. apply String.eqb_eq. exact Hk. }
  destruct (filter (fun x => String.eqb (column_of column x) key) rows)
    as [|r rest] eqn:E; [contradiction|].
  exists r, rest. split; [reflexivity|].
  assert (Hr : In r (filter (fun x => String.eqb (column_of column x) key)
                            rows)) by (rewrite E; left; reflexivity).
  apply filter_In in Hr. destruct Hr as [Hr1 Hr2].
  split; [exact Hr1|]. apply String.eqb_eq. exact Hr2.
Qed.

(** X2: a lookup fails exactly when its key is in no row: with a key that
    the column does not hold, [getSchematicRecordByDeleteKey] and
    [getSchematicRecordByDownloadKey] fail with their not-found error;
    with a key that the column holds they return the record of a row with
    that key; in both cases the state is left as it was. *)
Theorem X2_lookup_fails_exactly_on_unknown_keys (key : string) (w : World) :
  (~ In key (column_values col_delete_key (accounting w)) ->
     getSchematicRecordByDeleteKey key w = (Err not_found_delete_key, w))
  /\ (~ In key (column_values col_download_key (accounting w)) ->
        getSchematicRecordByDownloadKey key w
        = (Err not_found_download_key, w))
  /\ (In key (column_values col_delete_key (accounting w)) ->
        exists r, In r (accounting w) /\ Row.delete_key r = key
                  /\ getSchematicRecordByDeleteKey key w
                     = (Ok (transformRowToRecord r), w))
  /\ (In key (column_values col_download_key (accounting w)) ->
        exists r, In r (accounting w) /\ Row.download_key r = key
                  /\ getSchematicRecordByDownloadKey key w
                     = (Ok (transformRowToRecord r), w)).
Proof.
  split; [|split; [|split]].
  - intros Habs.
    pose proof (select_by_key_absent col_delete_key (accounting w) key Habs)
      as Hsel. simpl in Hsel.
    unfold getSchematicRecordByDeleteKey. run. rewrite Hsel. reflexivity.
  - intros Habs.
    pose proof (select_by_key_absent col_download_key (accounting w) key Habs)
      as Hsel. simpl in Hsel.
    unfold getSchematicRecordByDownloadKey. run. rewrite Hsel. reflexivity.
  - intros Hin.
    destruct (select_by_key_present col_delete_key key (accounting w) Hin)
      as [r [rest [Hsel [Hr Hk]]]]. simpl in Hsel, Hk.
    exists r. split; [exact Hr|]. split; [exact Hk|].
    unfold getSchematicRecordByDeleteKey. run. rewrite Hsel. reflexivity.
  - intros Hin.
    destruct (select_by_key_present col_download_key key (accounting w) Hin)
      as [r [rest [Hsel [Hr Hk]]]]. simpl in Hsel, Hk.
    exists r. split; [exact Hr|]. split; [exact Hk|].
    unfold getSchematicRecordByDownloadKey. run. rewrite Hsel. reflexivity.
Qed.

Lemma X2_witness :
  getSchematicRecordByDeleteKey "ffffffffffffffffffffffffffffffff"
                                Sample.world
  = (Err not_found_delete_key, Sample.world)
  /\ exists r, In r (accounting Sample.world)
               /\ Row.download_key r = "00000000000000000000000000000002"%string
               /\ getSchematicRecordByDownloadKey
                    "00000000000000000000000000000002" Sample.world
                  = (Ok (transformRowToRecord r), Sample.world).
Proof.
  split.
  - apply (proj1 (X2_lookup_fails_exactly_on_unknown_keys
                    "ffffffffffffffffffffffffffffffff" Sample.world)).
    simpl. intuition discriminate.
  - apply (proj2 (proj2 (proj2 (X2_lookup_fails_exactly_on_unknown_keys
                    "00000000000000000000000000000002" Sample.world)))).
    simpl. right. left. reflexivity.
Defined.

(** X3: a record stored with keys that are new can be looked up by its
    download key and by its delete key right away; both lookups return the
    record of the inserted row, which carries the id that the store
    assigned, the time of the insert and the file name and keys of the
    record that was stored. *)
Theorem X3_store_then_lookup
        (record : SchematicRecord.t) (w : World) :
  wf w ->
  ~ In (SchematicRecord.downloadKey record)
       (column_values col_download_key (accounting w)) ->
  ~ In (SchematicRecord.deleteKey record)
       (column_values col_delete_key (accounting w)) ->
  let w1 := snd (storeSchematicRecord record w) in
  let found := transformRowToRecord (inserted_row record w) in
  getSchematicRecordByDownloadKey (SchematicRecord.downloadKey record) w1
  = (Ok found, w1)
  /\ getSchematicRecordByDeleteKey (SchematicRecord.deleteKey record) w1
     = (Ok found, w1)
  /\ SchematicRecord.id found = Some (auto_increment w)
  /\ SchematicRecord.downloadKey found = SchematicRecord.downloadKey record
  /\ SchematicRecord.deleteKey found = SchematicRecord.deleteKey record
  /\ SchematicRecord.fileName found = SchematicRecord.fileName record
  /\ SchematicRecord.uploader found = SchematicRecord.uploader record
  /\ SchematicRecord.expired found = None
  /\ (clock w (clock_reads w) <> 0 ->
      SchematicRecord.last_accessed found
      = Some (new_Date (clock w (clock_reads w)))).
Proof.
  intros Hwf Hd He w1 found.
  assert (Hw1 : w1 = stored record w).
  { unfold w1. rewrite (storeSchematicRecord_accepted record w Hd He).
    reflexivity. }
  assert (Hwf1 : wf w1) by (rewrite Hw1; apply wf_stored; assumption).
  assert (Hin : In (inserted_row record w) (accounting w1)).
  { rewrite Hw1. simpl. apply in_or_app. right. left. reflexivity. }
  split; [|split].
  - exact (getSchematicRecordByDownloadKey_stored w1 _ Hwf1 Hin).
  - exact (getSchematicRecordByDeleteKey_stored w1 _ Hwf1 Hin).
  - unfold found. simpl. repeat split.
    intros Hnow. unfold truthy.
    destruct (Z.eqb_spec (clock w (clock_reads w)) 0) as [E|_];
      [contradiction | reflexivity].
Qed.

Lemma X3_witness :
  getSchematicRecordByDownloadKey
    "00000000000000000000000000000009"
    (snd (storeSchematicRecord Sample.upload Sample.world))
  = (Ok (transformRowToRecord (inserted_row Sample.upload Sample.world)),
     snd (storeSchematicRecord Sample.upload Sample.world))
  /\ SchematicRecord.id
       (transformRowToRecord (inserted_row Sample.upload Sample.world))
     = Some 4.
Proof.
  assert (Hd : ~ In (SchematicRecord.downloadKey Sample.upload)
                    (column_values col_download_key
                                   (accounting Sample.world)))
    by (simpl; intuition discriminate).
  assert (He : ~ In (SchematicRecord.deleteKey Sample.upload)
                    (column_values col_delete_key (accounting Sample.world)))
    by (simpl; intuition discriminate).
  destruct (X3_store_then_lookup Sample.upload Sample.world
              Sample_world_wf Hd He) as [H1 [_ [H3 _]]].
  split; [exact H1 | exact H3].
Defined.

(** X4: a record whose download key or delete key is already in the
    table is rejected by the UNIQUE columns of the schema: the call fails
    with the duplicate-entry error of the database and the table is as it
    was before. *)
Theorem X4_store_rejects_a_key_in_use
        (record : SchematicRecord.t) (w : World) :
  In (SchematicRecord.downloadKey record)
     (column_values col_download_key (accounting w))
  \/ In (SchematicRecord.deleteKey record)
        (column_values col_delete_key (accounting w)) ->
  (exists key_name,
      fst (storeSchematicRecord record w) = Err (ER_DUP_ENTRY key_name))
  /\ accounting (snd (storeSchematicRecord record w)) = accounting w
  /\ (forall rec, fst (storeSchematicRecord record w) <> Ok rec).
Proof.
  intros Htaken.
  destruct (storeSchematicRecord_rejected record w Htaken) as [[k Hk] Ht].
  split; [exists k; exact Hk|]. split; [exact Ht|].
  intros rec Hrec. rewrite Hk in Hrec. discriminate.
Qed.

Lemma X4_witness :
  (exists key_name,
      fst (storeSchematicRecord Sample.reupload Sample.world)
      = Err (ER_DUP_ENTRY key_name))
  /\ accounting (snd (storeSchematicRecord Sample.reupload Sample.world))
     = accounting Sample.world.
Proof.
  destruct (X4_store_rejects_a_key_in_use Sample.reupload Sample.world)
    as [H1 [H2 _]].
  - left. simpl. left. reflexivity.
  - split; assumption.
Defined.

(** X5: the records that [getAllUnexpiredRecords] lists are among those
    that [getAllRecords] lists and have [expired] unset, and the record of
    every row whose [expired] is NULL is listed as unexpired; neither
    listing changes the state. *)
Theorem X5_unexpired_listing_is_part_of_the_full_listing (w : World) :
  exists unexpired all,
    getAllUnexpiredRecords w = (Ok unexpired, w)
    /\ getAllRecords w = (Ok all, w)
    /\ (forall rec, In rec unexpired ->
          In rec all /\ SchematicRecord.expired rec = None)
    /\ (forall r, In r (accounting w) -> Row.expired r = None ->
          In (transformRowToRecord r) unexpired)
    /\ (List.length unexpired <= List.length all)%nat
    /\ List.length all = List.length (accounting w).
Proof.
  exists (map transformRowToRecord
            (filter (fun r => is_null (Row.expired r)) (accounting w))),
         (map transformRowToRecord (accounting w)).
  split; [reflexivity|]. split; [reflexivity|].
  split; [|split; [|split]].
  - intros rec Hrec. apply in_map_iff in Hrec.
    destruct Hrec as [r [Hr Hrin]]. apply filter_In in Hrin.
    destruct Hrin as [Hrin Hnull]. subst rec. split.
    + apply in_map. exact Hrin.
    + simpl. destruct (Row.expired r); [discriminate | reflexivity].
  - intros r Hin Hexp. apply in_map. apply filter_In.
    split; [exact Hin|]. rewrite Hexp. reflexivity.
  - rewrite !length_map. apply filter_length_le.
  - apply length_map.
Qed.

Lemma erase_update_row now p r :
  erase_expired (Sql.update_row now p r) = erase_expired r.
Proof. unfold Sql.update_row; destruct (id_matches p r); reflexivity. Qed.

Lemma erase_row_updates clk sel : forall k x,
  erase_expired (row_updates clk k sel x) = erase_expired x.
Proof.
  induction sel as [|s rest IH]; intros k x; [reflexivity|].
  simpl. rewrite IH. apply erase_update_row.
Qed.

(** One call appends at most to the table and rewrites [expired] only. *)
Lemma run_call_appends c w :
  exists extra,
    map erase_expired (accounting (run_call c w))
    = map erase_expired (accounting w) ++ extra.
Proof.
  destruct c; simpl.
  - exists []. rewrite app_nil_r. reflexivity.
  - exists []. rewrite app_nil_r. reflexivity.
  - exists []. rewrite getSchematicRecordByDeleteKey_state, app_nil_r.
    reflexivity.
  - exists []. rewrite getSchematicRecordByDownloadKey_state, app_nil_r.
    reflexivity.
  - exists []. rewrite expireSchematicRecord_eq, app_nil_r. simpl.
    rewrite map_map. apply map_ext. intro r. apply erase_update_row.
  - destruct (storeSchematicRecord_table record w) as [[_ [_ Hs]] | [Ht _]].
    + exists [erase_expired (inserted_row record w)].
      rewrite Hs. simpl. rewrite map_app. reflexivity.
    + exists []. rewrite Ht, app_nil_r. reflexivity.
  - exists []. rewrite expireSchematicRecords_eq, app_nil_r. simpl.
    rewrite map_map. apply map_ext. intro r. apply erase_row_updates.
  - exists [].
    destruct (generateUniqueKey_table col_delete_key maxIterations w)
      as [Ht _]. unfold generateDeletionKey. rewrite Ht, app_nil_r.
    reflexivity.
  - exists [].
    destruct (generateUniqueKey_table col_download_key maxIterations w)
      as [Ht _]. unfold generateDownloadKey. rewrite Ht, app_nil_r.
    reflexivity.
Qed.

Lemma run_calls_append cs : forall w,
  exists extra,
    map erase_expired (accounting (run_calls cs w))
    = map erase_expired (accounting w) ++ extra.
Proof.
  induction cs as [|c cs IH]; intros w.
  - exists []. rewrite app_nil_r. reflexivity.
  - simpl. destruct (IH (run_call c w)) as [e2 H2].
    destruct (run_call_appends c w) as [e1 H1].
    exists (e1 ++ e2). rewrite H2, H1, app_assoc. reflexivity.
Qed.

Lemma ids_erase rows :
  map Row.id (map erase_expired rows) = map Row.id rows.
Proof. rewrite map_map. reflexivity. Qed.

Lemma run_calls_keep_ids cs w i :
  In i (map Row.id (accounting w)) ->
  In i (map Row.id (accounting (run_calls cs w))).
Proof.
  intros Hin. destruct (run_calls_append cs w) as [extra H].
  rewrite <- ids_erase, H, map_app, ids_erase.
  apply in_or_app. left. exact Hin.
Qed.

(** X6: the table is append-only in every column but [expired]: through
    any sequence of calls the rows that were in the table stay, in their
    order and with their id, keys, file name, [last_accessed], uploader,
    type and positions; no call deletes a row or refreshes
    [last_accessed], and new rows come after the old ones. *)
Theorem X6_rows_are_never_deleted_and_only_expired_is_rewritten
        (cs : list Call) (w : World) :
  exists extra,
    map erase_expired (accounting (run_calls cs w))
    = map erase_expired (accounting w) ++ extra
    /\ (List.length (accounting w)
        <= List.length (accounting (run_calls cs w)))%nat
    /\ (forall r, In r (accounting w) ->
          exists r', In r' (accounting (run_calls cs w))
                     /\ erase_expired r' = erase_expired r).
Proof.
  destruct (run_calls_append cs w) as [extra H].
  exists extra. split; [exact H|]. split.
  - rewrite <- (length_map erase_expired (accounting (run_calls cs w))), H.
    rewrite length_app, length_map. lia.
  - intros r Hin.
    assert (Hin' : In (erase_expired r)
                      (map erase_expired (accounting (run_calls cs w)))).
    { rewrite H. apply in_or_app. left. apply in_map. exact Hin. }
    apply in_map_iff in Hin'. destruct Hin' as [r' [Hr' Hr'in]].
    exists r'. split; assumption.
Qed.

Lemma mark_stale_in c clk rows x : forall k,
  In x (mark_stale c clk k rows) ->
  (In x rows /\ stale c x = false)
  \/ (exists r t, In r rows /\ stale c r = true
                  /\ x = Row.set_expired (Some t) r).
Proof.
  induction rows as [|h rest IH]; intros k Hin; [contradiction|].
  simpl in Hin. destruct (stale c h) eqn:Hst.
  - destruct Hin as [E|Hin].
    + right. exists h, (clk k). split; [left; reflexivity|].
      split; [exact Hst | symmetry; exact E].
    + destruct (IH _ Hin) as [[H1 H2] | [r [t [H1 [H2 H3]]]]].
      * left. split; [right; exact H1 | exact H2].
      * right. exists r, t. split; [right; exact H1|]. split; assumption.
  - destruct Hin as [E|Hin].
    + left. subst x. split; [left; reflexivity | exact Hst].
    + destruct (IH _ Hin) as [[H1 H2] | [r [t [H1 [H2 H3]]]]].
      * left. split; [right; exact H1 | exact H2].
      * right. exists r, t. split; [right; exact H1|]. split; assumption.
Qed.

(** Once the rows of an id are expired, they are expired after any call. *)
Lemma run_call_expired_stays_set c w i :
  wf w -> In i (map Row.id (accounting w)) ->
  (forall r, In r (accounting w) -> Row.id r = i -> Row.expired r <> None) ->
  forall r', In r' (accounting (run_call c w)) -> Row.id r' = i ->
             Row.expired r' <> None.
Proof.
  intros Hwf Hi Hset r' Hin' Hid. destruct c; simpl in Hin'.
  - apply Hset; assumption.
  - apply Hset; assumption.
  - rewrite getSchematicRecordByDeleteKey_state in Hin'.
    apply Hset; assumption.
  - rewrite getSchematicRecordByDownloadKey_state in Hin'.
    apply Hset; assumption.
  - rewrite expireSchematicRecord_eq in Hin'. simpl in Hin'.
    apply in_map_iff in Hin'. destruct Hin' as [y [Hy Hyin]]. subst r'.
    rewrite update_row_id in Hid. unfold Sql.update_row.
    destruct (id_matches (Some recordId) y); [simpl; discriminate|].
    apply Hset; assumption.
  - destruct (storeSchematicRecord_table record w) as [[_ [_ Hs]] | [Ht _]].
    + rewrite Hs in Hin'. simpl in Hin'. apply in_app_or in Hin'.
      destruct Hin' as [Hold | [Hnew | []]]; [apply Hset; assumption|].
      exfalso. subst r'. simpl in Hid.
      pose proof (wf_auto w Hwf) as Hauto. rewrite Forall_forall in Hauto.
      specialize (Hauto i Hi). lia.
    + rewrite Ht in Hin'. apply Hset; assumption.
  - rewrite expireSchematicRecords_eq in Hin'. simpl in Hin'.
    rewrite sweep_updates_mark_stale in Hin' by (apply (wf_ids w Hwf)).
    apply mark_stale_in in Hin'.
    destruct Hin' as [[H1 _] | [r [t [_ [_ H3]]]]].
    + apply Hset; assumption.
    + subst r'. simpl. discriminate.
  - destruct (generateUniqueKey_table col_delete_key maxIterations w)
      as [Ht _]. unfold generateDeletionKey in Hin'. rewrite Ht in Hin'.
    apply Hset; assumption.
  - destruct (generateUniqueKey_table col_download_key maxIterations w)
      as [Ht _]. unfold generateDownloadKey in Hin'. rewrite Ht in Hin'.
    apply Hset; assumption.
Qed.

Lemma run_calls_expired_stays_set cs i : forall w,
  wf w -> In i (map Row.id (accounting w)) ->
  (forall r, In r (accounting w) -> Row.id r = i -> Row.expired r <> None) ->
  forall r', In r' (accounting (run_calls cs w)) -> Row.id r' = i ->
             Row.expired r' <> None.
Proof.
  induction cs as [|c cs IH]; intros w Hwf Hi Hset; [exact Hset|].
  simpl. apply IH.
  - apply run_call_wf. exact Hwf.
  - apply (run_calls_keep_ids [c] w i Hi).
  - apply run_call_expired_stays_set; assumption.
Qed.

(** X7: expiry is final for the sweep: a record that one call of
    [expireSchematicRecords] returned is returned by no later call of it,
    whatever its duration and whatever calls were made in between. *)
Theorem X7_no_record_is_swept_twice
        (d1 d2 : Z) (cs : list Call) (w : World) :
  wf w ->
  let w1 := run_calls cs (snd (expireSchematicRecords d1 w)) in
  exists first later,
    fst (expireSchematicRecords d1 w) = Ok first
    /\ fst (expireSchematicRecords d2 w1) = Ok later
    /\ forall rec1 rec2, In rec1 first -> In rec2 later ->
         SchematicRecord.id rec1 <> SchematicRecord.id rec2.
Proof.
  intros Hwf w1.
  exists (map transformRowToRecord
            (filter (stale (clock w (clock_reads w) - d1)) (accounting w))),
         (map transformRowToRecord
            (filter (stale (clock w1 (clock_reads w1) - d2)) (accounting w1))).
  split; [rewrite expireSchematicRecords_eq; reflexivity|].
  split; [rewrite expireSchematicRecords_eq; reflexivity|].
  intros rec1 rec2 H1 H2 Heq.
  apply in_map_iff in H1. destruct H1 as [r [Hr Hrin]].
  apply in_map_iff in H2. destruct H2 as [x [Hx Hxin]].
  subst rec1 rec2. simpl in Heq. injection Heq as Heq.
  apply filter_In in Hrin. destruct Hrin as [Hrin Hrst].
  apply filter_In in Hxin. destruct Hxin as [Hxin Hxst].
  apply stale_iff in Hxst. destruct Hxst as [Hxnull _].
  set (w0 := snd (expireSchematicRecords d1 w)) in *.
  assert (Hwf0 : wf w0)
    by (apply (run_call_wf (call_expireSchematicRecords d1) w Hwf)).
  assert (Hi0 : In (Row.id r) (map Row.id (accounting w0))).
  { apply (run_calls_keep_ids [call_expireSchematicRecords d1] w).
    apply in_map. exact Hrin. }
  assert (Hset0 : forall y, In y (accounting w0) -> Row.id y = Row.id r ->
                            Row.expired y <> None).
  { intros y Hy Hyid. unfold w0 in Hy.
    rewrite expireSchematicRecords_eq in Hy. simpl in Hy.
    rewrite sweep_updates_mark_stale in Hy by (apply (wf_ids w Hwf)).
    apply mark_stale_in in Hy.
    destruct Hy as [[Hy1 Hy2] | [y0 [t [_ [_ Hy3]]]]].
    - assert (y = r) by (apply (same_id_same_row (accounting w));
                         [apply (wf_ids w Hwf)| | |]; assumption).
      subst y. congruence.
    - subst y. simpl. discriminate. }
  apply (run_calls_expired_stays_set cs (Row.id r) w0 Hwf0 Hi0 Hset0 x Hxin);
    [symmetry; exact Heq | exact Hxnull].
Qed.

Lemma X7_witness :
  exists first later,
    fst (expireSchematicRecords 6000 Sample.world) = Ok first
    /\ fst (expireSchematicRecords 0
              (run_calls [call_expireSchematicRecord 1;
                          call_storeSchematicRecord Sample.upload]
                         (snd (expireSchematicRecords 6000 Sample.world))))
       = Ok later
    /\ forall rec1 rec2, In rec1 first -> In rec2 later ->
         SchematicRecord.id rec1 <> SchematicRecord.id rec2.
Proof.
  exact (X7_no_record_is_swept_twice 6000 0
           [call_expireSchematicRecord 1;
            call_storeSchematicRecord Sample.upload]
           Sample.world Sample_world_wf).
Defined.

Lemma filter_unexpired_mark_stale c clk rows : forall k,
  filter (fun r => is_null (Row.expired r)) (mark_stale c clk k rows)
  = filter (survives c) rows.
Proof.
  induction rows as [|r rest IH]; intros k; [reflexivity|].
  simpl. unfold survives at 1. destruct (stale c r) eqn:Hst.
  - simpl. apply stale_iff in Hst. destruct Hst as [Hnull Hle].
    apply Z.leb_le in Hle. rewrite Hle, andb_false_r. apply IH.
  - simpl. unfold stale in Hst. destruct (is_null (Row.expired r)).
    + rewrite andb_true_r in Hst. rewrite Hst. simpl. f_equal. apply IH.
    + simpl. apply IH.
Qed.

Lemma unexpired_split c rows :
  List.length (filter (fun r => is_null (Row.expired r)) rows)
  = (List.length (filter (stale c) rows)
     + List.length (filter (survives c) rows))%nat.
Proof.
  induction rows as [|r rest IH]; [reflexivity|].
  simpl. unfold stale, survives in *.
  destruct (is_null (Row.expired r)), (Row.last_accessed r <=? c); simpl;
    lia.
Qed.

(** X8: after [expireSchematicRecords d], [getAllUnexpiredRecords] lists
    exactly the records of the rows that were unexpired and accessed after
    the cutoff; the records that were unexpired before the sweep are split
    between the sweep's result and that listing. *)
Theorem X8_sweep_then_unexpired_listing (d : Z) (w : World) :
  wf w ->
  let cutoff := clock w (clock_reads w) - d in
  let w1 := snd (expireSchematicRecords d w) in
  exists swept before after,
    fst (expireSchematicRecords d w) = Ok swept
    /\ getAllUnexpiredRecords w = (Ok before, w)
    /\ getAllUnexpiredRecords w1 = (Ok after, w1)
    /\ after = map transformRowToRecord (filter (survives cutoff) (accounting w))
    /\ (forall rec, In rec after -> In rec before /\ ~ In rec swept)
    /\ List.length before = (List.length swept + List.length after)%nat.
Proof.
  intros Hwf cutoff w1.
  exists (map transformRowToRecord (filter (stale cutoff) (accounting w))),
         (map transformRowToRecord
            (filter (fun r => is_null (Row.expired r)) (accounting w))),
         (map transformRowToRecord (filter (survives cutoff) (accounting w))).
  split; [rewrite expireSchematicRecords_eq; reflexivity|].
  split; [reflexivity|]. split; [|split; [reflexivity|split]].
  - unfold getAllUnexpiredRecords. run. unfold w1.
    rewrite expireSchematicRecords_eq. simpl.
    rewrite sweep_updates_mark_stale by (apply (wf_ids w Hwf)).
    rewrite filter_unexpired_mark_stale. reflexivity.
  - intros rec Hrec. apply in_map_iff in Hrec.
    destruct Hrec as [r [Hr Hrin]]. apply filter_In in Hrin.
    destruct Hrin as [Hrin Hsurv]. unfold survives in Hsurv.
    apply andb_true_iff in Hsurv. destruct Hsurv as [Hnull Hlate].
    subst rec. split.
    + apply in_map. apply filter_In. split; assumption.
    + intro Hsw. apply in_map_iff in Hsw. destruct Hsw as [x [Hx Hxin]].
      apply filter_In in Hxin. destruct Hxin as [Hxin Hxst].
      assert (Hid : Row.id x = Row.id r).
      { assert (E : SchematicRecord.id (transformRowToRecord x)
                    = SchematicRecord.id (transformRowToRecord r))
          by (rewrite Hx; reflexivity).
        simpl in E. injection E as E. exact E. }
      assert (x = r) by (apply (same_id_same_row (accounting w));
                         [apply (wf_ids w Hwf)| | |]; assumption).
      subst x. unfold stale in Hxst. apply andb_true_iff in Hxst.
      destruct Hxst as [Hle _]. rewrite Hle in Hlate. discriminate.
  - rewrite !length_map. apply unexpired_split.
Qed.

Lemma X8_witness :
  exists swept before after,
    fst (expireSchematicRecords 6000 Sample.world) = Ok swept
    /\ getAllUnexpiredRecords Sample.world = (Ok before, Sample.world)
    /\ getAllUnexpiredRecords (snd (expireSchematicRecords 6000 Sample.world))
       = (Ok after, snd (expireSchematicRecords 6000 Sample.world))
    /\ after = [transformRowToRecord Sample.row2]
    /\ (forall rec, In rec after -> In rec before /\ ~ In rec swept)
    /\ List.length before = (List.length swept + List.length after)%nat.
Proof.
  exact (X8_sweep_then_unexpired_listing 6000 Sample.world Sample_world_wf).
Defined.

(** X9: an expired record is still found by its keys: after
    [expireSchematicRecord] on the id of a stored row, the lookups by that
    row's download key and delete key succeed and return the record of the
    row with [expired] set to the time of the call. *)
Theorem X9_expired_record_is_still_found_by_its_keys
        (w : World) (r : Row.t) :
  wf w -> In r (accounting w) ->
  let now := clock w (clock_reads w) in
  let w1 := snd (expireSchematicRecord (Row.id r) w) in
  let found := transformRowToRecord (Row.set_expired (Some now) r) in
  getSchematicRecordByDownloadKey (Row.download_key r) w1 = (Ok found, w1)
  /\ getSchematicRecordByDeleteKey (Row.delete_key r) w1 = (Ok found, w1)
  /\ (now <> 0 -> SchematicRecord.expired found = Some (new_Date now))
  /\ (now = 0 -> SchematicRecord.expired found = None).
Proof.
  intros Hwf Hin now w1 found.
  assert (Hwf1 : wf w1)
    by (apply (run_call_wf (call_expireSchematicRecord (Row.id r)) w Hwf)).
  destruct (expireSchematicRecord_known (Row.id r) w r Hin eq_refl)
    as [_ [Hset _]].
  split; [|split; [|split]].
  - exact (getSchematicRecordByDownloadKey_stored w1 _ Hwf1 Hset).
  - exact (getSchematicRecordByDeleteKey_stored w1 _ Hwf1 Hset).
  - intros Hnow. unfold found. simpl. unfold truthy.
    destruct (Z.eqb_spec now 0) as [E|_]; [contradiction | reflexivity].
  - intros Hnow. unfold found. simpl. unfold truthy.
    rewrite Hnow. reflexivity.
Qed.

Lemma X9_witness :
  getSchematicRecordByDownloadKey
    (Row.download_key Sample.row2)
    (snd (expireSchematicRecord 2 Sample.world))
  = (Ok (transformRowToRecord (Row.set_expired (Some 10000) Sample.row2)),
     snd (expireSchematicRecord 2 Sample.world))
  /\ SchematicRecord.expired
       (transformRowToRecord (Row.set_expired (Some 10000) Sample.row2))
     = Some (new_Date 10000).
Proof.
  assert (Hin : In Sample.row2 (accounting Sample.world))
    by (simpl; right; left; reflexivity).
  destruct (X9_expired_record_is_still_found_by_its_keys
              Sample.world Sample.row2 Sample_world_wf Hin)
    as [H1 [_ [H3 _]]].
  split; [exact H1|]. apply H3. simpl. unfold Sample.ticking. simpl. lia.
Defined.

(** X10: the bound of key generation: with [maxIterations] zero or
    negative the loop body never runs, so both generators fail with the
    generation-exhausted error without drawing a candidate, even on an
    empty table; with [maxIterations] at least 1 and a first candidate
    that is not in the column, they return that candidate after one
    round. *)
Theorem X10_key_generation_at_its_bounds
        (column : KeyColumn) (maxIterations : Z) (w : World) :
  (maxIterations <= 0 ->
     generateUniqueKey column maxIterations w = (Err generation_exhausted, w))
  /\ (1 <= maxIterations ->
      ~ In (candidate w 0) (column_values column (accounting w)) ->
      generateUniqueKey column maxIterations w
      = (Ok (candidate w 0), advance_entropy 32 w))
  /\ generateDeletionKey maxIterations w
     = generateUniqueKey col_delete_key maxIterations w
  /\ generateDownloadKey maxIterations w
     = generateUniqueKey col_download_key maxIterations w.
Proof.
  split; [|split; [|split; reflexivity]].
  - intros Hle. unfold generateUniqueKey.
    replace (Z.to_nat maxIterations) with 0%nat by lia. reflexivity.
  - intros Hge Hfree. unfold generateUniqueKey.
    destruct (Z.to_nat maxIterations) as [|n] eqn:En; [lia|].
    rewrite generateUniqueKey_loop_S, (key_free _ _ _ Hfree). reflexivity.
Qed.

Lemma X10_witness :
  generateUniqueKey col_delete_key 0 (fresh_world Sample.ticking Sample.zeros)
  = (Err generation_exhausted, fresh_world Sample.ticking Sample.zeros)
  /\ generateUniqueKey col_delete_key 1
       (fresh_world Sample.ticking Sample.zeros)
     = (Ok (candidate (fresh_world Sample.ticking Sample.zeros) 0),
        advance_entropy 32 (fresh_world Sample.ticking Sample.zeros)).
Proof.
  split.
  - apply (proj1 (X10_key_generation_at_its_bounds
                    col_delete_key 0
                    (fresh_world Sample.ticking Sample.zeros))). lia.
  - apply (proj1 (proj2 (X10_key_generation_at_its_bounds
                    col_delete_key 1
                    (fresh_world Sample.ticking Sample.zeros)))).
    + lia.
    + simpl. intros [].
Defined.

(** X11: keys that the generators returned are accepted by the table: a
    record that carries a download key returned by [generateDownloadKey]
    and a delete key returned by [generateDeletionKey] right after it is
    stored without a duplicate-entry error, and both keys are
    32-character lowercase-hex strings. *)
Theorem X11_generated_keys_are_accepted_by_the_store
        (n m : Z) (w w1 w2 : World) (downloadKey deleteKey : string)
        (record : SchematicRecord.t) :
  generateDownloadKey n w = (Ok downloadKey, w1) ->
  generateDeletionKey m w1 = (Ok deleteKey, w2) ->
  SchematicRecord.downloadKey record = downloadKey ->
  SchematicRecord.deleteKey record = deleteKey ->
  fst (storeSchematicRecord record w2) = Ok record
  /\ accounting (snd (storeSchematicRecord record w2))
     = accounting w ++ [inserted_row record w2]
  /\ is_key32 downloadKey = true
  /\ is_key32 deleteKey = true.
Proof.
  intros Hg1 Hg2 Hk1 Hk2.
  pose proof (generateUniqueKey_outcome col_download_key n w) as O1.
  pose proof (generateUniqueKey_outcome col_delete_key m w1) as O2.
  unfold generateDownloadKey in Hg1. unfold generateDeletionKey in Hg2.
  unfold key_generation_outcome in O1, O2. rewrite Hg1 in O1.
  rewrite Hg2 in O2. cbn [fst snd] in O1, O2.
  destruct O1 as [T1 [[K1 [F1 _]] _]]. destruct O2 as [T2 [[K2 [F2 _]] _]].
  assert (Hd : ~ In (SchematicRecord.downloadKey record)
                    (column_values col_download_key (accounting w2)))
    by (rewrite Hk1, T2, T1; exact F1).
  assert (He : ~ In (SchematicRecord.deleteKey record)
                    (column_values col_delete_key (accounting w2)))
    by (rewrite Hk2, T2; exact F2).
  rewrite (storeSchematicRecord_accepted record w2 Hd He).
  cbn [fst snd stored accounting]. rewrite T2, T1.
  repeat split; assumption.
Qed.

Lemma X11_witness :
  fst (storeSchematicRecord
         (SchematicRecord.mk None Sample.zeros32 Sample.zeros32 "gate.schem"
                             None None None None None None)
         (advance_entropy 64 Sample.world))
  = Ok (SchematicRecord.mk None Sample.zeros32 Sample.zeros32 "gate.schem"
                           None None None None None None)
  /\ is_key32 Sample.zeros32 = true.
Proof.
  destruct (X11_generated_keys_are_accepted_by_the_store
              20 20 Sample.world (advance_entropy 32 Sample.world)
              (advance_entropy 64 Sample.world)
              Sample.zeros32 Sample.zeros32
              (SchematicRecord.mk None Sample.zeros32 Sample.zeros32
                                  "gate.schem" None None None None None None)
              eq_refl eq_refl eq_refl eq_refl) as [H1 [_ [H3 _]]].
  split; assumption.
Defined.

Lemma stale_monotone c1 c2 r :
  c2 <= c1 -> stale c2 r = true -> stale c1 r = true.
Proof.
  intros Hle Hst. apply stale_iff in Hst. apply stale_iff.
  destruct Hst as [H1 H2]. split; [exact H1 | lia].
Qed.

(** X12: a longer duration expires less: in one state, every record that
    [expireSchematicRecords] returns for a duration is returned for every
    shorter duration too, and every record it returns is listed by
    [getAllUnexpiredRecords] in that state. *)
Theorem X12_sweep_is_monotone_in_the_duration (d1 d2 : Z) (w : World) :
  d1 <= d2 ->
  exists shorter longer unexpired,
    fst (expireSchematicRecords d1 w) = Ok shorter
    /\ fst (expireSchematicRecords d2 w) = Ok longer
    /\ getAllUnexpiredRecords w = (Ok unexpired, w)
    /\ incl longer shorter
    /\ incl shorter unexpired.
Proof.
  intros Hle.
  exists (map transformRowToRecord
            (filter (stale (clock w (clock_reads w) - d1)) (accounting w))),
         (map transformRowToRecord
            (filter (stale (clock w (clock_reads w) - d2)) (accounting w))),
         (map transformRowToRecord
            (filter (fun r => is_null (Row.expired r)) (accounting w))).
  split; [rewrite expireSchematicRecords_eq; reflexivity|].
  split; [rewrite expireSchematicRecords_eq; reflexivity|].
  split; [reflexivity|]. split.
  - intros rec Hrec. apply in_map_iff in Hrec.
    destruct Hrec as [r [Hr Hrin]]. subst rec. apply in_map.
    apply filter_In in Hrin. destruct Hrin as [Hrin Hst].
    apply filter_In. split; [exact Hrin|].
    apply (stale_monotone _ (clock w (clock_reads w) - d2)); [lia|exact Hst].
  - intros rec Hrec. apply in_map_iff in Hrec.
    destruct Hrec as [r [Hr Hrin]]. subst rec. apply in_map.
    apply filter_In in Hrin. destruct Hrin as [Hrin Hst].
    apply filter_In. split; [exact Hrin|].
    apply stale_iff in Hst. destruct Hst as [Hnull _]. rewrite Hnull.
    reflexivity.
Qed.

Lemma X12_witness :
  exists shorter longer unexpired,
    fst (expireSchematicRecords 0 Sample.world) = Ok shorter
    /\ fst (expireSchematicRecords 6000 Sample.world) = Ok longer
    /\ getAllUnexpiredRecords Sample.world = (Ok unexpired, Sample.world)
    /\ incl longer shorter
    /\ incl shorter unexpired.
Proof.
  apply (X12_sweep_is_monotone_in_the_duration 0 6000 Sample.world). lia.
Defined.

(** X13: [expireSchematicRecord] does not refuse a record that is already
    expired: called twice on the id of a stored row, both calls succeed,
    and the row ends with the time of the second call in [expired]. *)
Theorem X13_expiring_twice_keeps_the_later_time (w : World) (r : Row.t) :
  wf w -> In r (accounting w) ->
  let w1 := snd (expireSchematicRecord (Row.id r) w) in
  let w2 := snd (expireSchematicRecord (Row.id r) w1) in
  fst (expireSchematicRecord (Row.id r) w) = Ok tt
  /\ fst (expireSchematicRecord (Row.id r) w1) = Ok tt
  /\ In (Row.set_expired (Some (clock w (S (clock_reads w)))) r)
        (accounting w2)
  /\ (forall r', In r' (accounting w2) -> Row.id r' = Row.id r ->
        r' = Row.set_expired (Some (clock w (S (clock_reads w)))) r).
Proof.
  intros Hwf Hin w1 w2.
  destruct (expireSchematicRecord_known (Row.id r) w r Hin eq_refl)
    as [Hok1 [Hset1 _]].
  fold w1 in Hset1.
  assert (Hwf1 : wf w1)
    by (apply (run_call_wf (call_expireSchematicRecord (Row.id r)) w Hwf)).
  assert (Hclock : clock w1 (clock_reads w1) = clock w (S (clock_reads w))).
  { unfold w1. rewrite expireSchematicRecord_eq. simpl.
    f_equal. lia. }
  set (r1 := Row.set_expired (Some (clock w (clock_reads w))) r) in *.
  destruct (expireSchematicRecord_known (Row.id r) w1 r1 Hset1 eq_refl)
    as [Hok2 [Hset2 _]].
  fold w2 in Hset2. rewrite Hclock in Hset2.
  split; [exact Hok1|]. split; [exact Hok2|]. split; [exact Hset2|].
  intros r' Hin' Hid.
  pose proof (expire_overwrites w1 r1 r' Hwf1 Hset1 Hin' Hid) as E.
  rewrite Hclock in E. exact E.
Qed.

Lemma X13_witness :
  fst (expireSchematicRecord 3 (snd (expireSchematicRecord 3 Sample.world)))
  = Ok tt
  /\ In (Row.set_expired (Some 10001) Sample.row3)
        (accounting
           (snd (expireSchematicRecord 3
                   (snd (expireSchematicRecord 3 Sample.world))))).
Proof.
  assert (Hin : In Sample.row3 (accounting Sample.world))
    by (simpl; right; right; left; reflexivity).
  destruct (X13_expiring_twice_keeps_the_later_time
              Sample.world Sample.row3 Sample_world_wf Hin)
    as [_ [H2 [H3 _]]].
  split; [exact H2 | exact H3].
Defined.

(** X14: a record expired by [expireSchematicRecord] is out of reach of
    the sweep: whatever calls follow, no later call of
    [expireSchematicRecords] returns a record of that id, and
    [getAllUnexpiredRecords] does not list one. *)
Theorem X14_expired_record_is_never_swept
        (w : World) (r : Row.t) (cs : list Call) (d : Z) :
  wf w -> In r (accounting w) ->
  let w1 := run_calls cs (snd (expireSchematicRecord (Row.id r) w)) in
  exists swept unexpired,
    fst (expireSchematicRecords d w1) = Ok swept
    /\ getAllUnexpiredRecords w1 = (Ok unexpired, w1)
    /\ (forall rec, In rec swept -> SchematicRecord.id rec <> Some (Row.id r))
    /\ (forall rec, In rec unexpired ->
          SchematicRecord.id rec <> Some (Row.id r)).
Proof.
  intros Hwf Hin w1.
  set (w0 := snd (expireSchematicRecord (Row.id r) w)) in *.
  assert (Hwf0 : wf w0)
    by (apply (run_call_wf (call_expireSchematicRecord (Row.id r)) w Hwf)).
  assert (Hi0 : In (Row.id r) (map Row.id (accounting w0))).
  { apply (run_calls_keep_ids [call_expireSchematicRecord (Row.id r)] w).
    apply in_map. exact Hin. }
  assert (Hset0 : forall y, In y (accounting w0) -> Row.id y = Row.id r ->
                            Row.expired y <> None).
  { intros y Hy Hyid.
    rewrite (expire_overwrites w r y Hwf Hin Hy Hyid). simpl. discriminate. }
  pose proof (run_calls_expired_stays_set cs (Row.id r) w0 Hwf0 Hi0 Hset0)
    as Hlater. fold w1 in Hlater.
  exists (map transformRowToRecord
            (filter (stale (clock w1 (clock_reads w1) - d)) (accounting w1))),
         (map transformRowToRecord
            (filter (fun x => is_null (Row.expired x)) (accounting w1))).
  split; [rewrite expireSchematicRecords_eq; reflexivity|].
  split; [reflexivity|]. split.
  - intros rec Hrec Hid. apply in_map_iff in Hrec.
    destruct Hrec as [x [Hx Hxin]]. subst rec. simpl in Hid.
    injection Hid as Hid. apply filter_In in Hxin.
    destruct Hxin as [Hxin Hst]. apply stale_iff in Hst.
    destruct Hst as [Hnull _]. exact (Hlater x Hxin Hid Hnull).
  - intros rec Hrec Hid. apply in_map_iff in Hrec.
    destruct Hrec as [x [Hx Hxin]]. subst rec. simpl in Hid.
    injection Hid as Hid. apply filter_In in Hxin.
    destruct Hxin as [Hxin Hnull]. apply (Hlater x Hxin Hid).
    destruct (Row.expired x); [discriminate | reflexivity].
Qed.

Lemma X14_witness :
  exists swept unexpired,
    fst (expireSchematicRecords 0
           (run_calls [call_storeSchematicRecord Sample.upload]
                      (snd (expireSchematicRecord 1 Sample.world))))
    = Ok swept
    /\ getAllUnexpiredRecords
         (run_calls [call_storeSchematicRecord Sample.upload]
                    (snd (expireSchematicRecord 1 Sample.world)))
       = (Ok unexpired,
          run_calls [call_storeSchematicRecord Sample.upload]
                    (snd (expireSchematicRecord 1 Sample.world)))
    /\ (forall rec, In rec swept -> SchematicRecord.id rec <> Some 1)
    /\ (forall rec, In rec unexpired -> SchematicRecord.id rec <> Some 1).
Proof.
  apply (X14_expired_record_is_never_swept
           Sample.world Sample.row1
           [call_storeSchematicRecord Sample.upload] 0 Sample_world_wf).
  simpl. left. reflexivity.
Defined.
